(** * Ember.SimpleAuth: session, base authenticator, base authorizer

    A shallow embedding of

    - [packages/ember-simple-auth/lib/session.js]
    - [lib/ember-simple-auth/authenticators/base.js]
    - [packages/ember-simple-auth/lib/authorizers/base.js]

    JavaScript objects that the session mutates (itself, the store, the
    listener tables of the authenticators) are gathered in one [World]
    that every function threads through; a thrown exception leaves the
    world as it was at the throw.  A promise is represented by the state
    it settles to, and an operation that hands callbacks to a promise is
    modelled together with the turn in which those callbacks run. *)

From stdpp Require Import gmap strings list fin_maps.

Open Scope string_scope.
Open Scope list_scope.

(** ** Values *)

(** Property values and identifiers: the serialisable scalars. *)
Inductive value :=
| VNull
| VBool (b : bool)
| VNum (n : Z)
| VStr (s : string).

#[global] Instance value_eq_dec : EqDecision value.
Proof. solve_decision. Defined.

(** [!!v] of the source. *)
Definition truthy (v : value) : bool :=
  match v with
  | VNull => false
  | VBool b => b
  | VNum n => negb (n =? 0)%Z
  | VStr s => negb (String.eqb s "")
  end.

(** A property bag; [content] is a bag or [null] ([None]). *)
Abbreviation PropertyBag := (gmap string value).
Abbreviation Content := (option (gmap string value)).

(** Reading a property that may be absent gives [undefined], which is
    falsy like [null]. *)
Definition prop_truthy (o : option value) : bool :=
  match o with
  | Some v => truthy v
  | None => false
  end.

Inductive exn := TypeError | ReferenceError.

(** What a promise rejects with: nothing ([reject()]), a value, or an
    exception that was thrown. *)
Inductive reason :=
| RUndefined
| RValue (v : value)
| RThrown (e : exn).

(** The state a promise ends in. *)
Inductive Settled (A : Type) :=
| Resolved (a : A)
| Rejected (r : reason)
| Pending.
Arguments Resolved {A} a.
Arguments Rejected {A} r.
Arguments Pending {A}.

(** ** Promises ([Ember.RSVP.Promise]) *)

(** What the body of a resolver function does. *)
Inductive Resolver (A : Type) :=
| CallResolve (a : A)
| CallReject (r : reason)
| Throws (e : exn)
| Returns.
Arguments CallResolve {A} a.
Arguments CallReject {A} r.
Arguments Throws {A} e.
Arguments Returns {A}.

(** [new Ember.RSVP.Promise(resolver)]: an exception escaping the
    resolver rejects the promise with it. *)
Definition new_Promise {A} (resolver : Resolver A) : Settled A :=
  match resolver with
  | CallResolve a => Resolved a
  | CallReject r => Rejected r
  | Throws e => Rejected (RThrown e)
  | Returns => Pending
  end.

(** ** Authenticators *)

(** The three hooks an authenticator offers, each giving a promise. *)
Record Authenticator := {
  auth_restore : gmap string value -> Settled Content;
  auth_authenticate : value -> Settled Content;
  auth_invalidate : Content -> Settled unit
}.

Module Authenticators.

(** [authenticators/base.js] *)
Module Base.

(** [function(resolve, reject) { reject(); }] *)
Definition restore (properties : gmap string value) : Settled Content :=
  new_Promise (CallReject RUndefined).

Definition authenticate (options : value) : Settled Content :=
  new_Promise (CallReject RUndefined).

(** [function(resolve) { reject(); }]: the resolver names only its
    first parameter, so [reject] is an unbound identifier and calling
    it throws a [ReferenceError]. *)
Definition invalidate (content : Content) : Settled unit :=
  new_Promise (Throws ReferenceError).

Definition Base : Authenticator :=
  {| auth_restore := restore;
     auth_authenticate := authenticate;
     auth_invalidate := invalidate |}.

End Base.

(** An authenticator whose [restore] forwards its argument through the
  promise ("in most cases the properties argument will simply be
  forwarded"). *)
Definition forwarding (A : Authenticator) : Prop :=
forall p, auth_restore A p = Resolved (Some p).

End Authenticators.

(** The container: [container.lookup] gives the singleton registered under a
    name, so an authenticator is identified by its name. *)
Abbreviation Container := (string -> option Authenticator).

(** ** Store *)

Inductive StoreCall :=
| CallRestore
| CallPersist (d : gmap string value)
| CallClear
| CallLock
| CallUnlock
| CallIsLocked.

#[global] Instance StoreCall_eq_dec : EqDecision StoreCall.
Proof. solve_decision. Defined.

(** Modelled from the spec: [Ember.SimpleAuth.Stores.Base] is not among
    the sources.  A bag of properties and one advisory lock flag;
    [calls] records, oldest first, the calls the session made. *)
Record Store := {
  data : gmap string value;
  locked : bool;
  calls : list StoreCall
}.

(** ** Session *)

Record Session := {
  isAuthenticated : bool;
  authenticatorFactory : value;
  content : Content
}.

(** The property defaults of the class. *)
Definition Session_defaults : Session :=
  {| isAuthenticated := false; authenticatorFactory := VNull; content := None |}.

(** [bound] lists the authenticators (by name) on which a
    ['ember-simple-auth:session-updated'] listener of this session is
    bound, one entry per listener; [store_bound] counts the listeners
    on the store. *)
Record World := {
  session : Session;
  store : Store;
  bound : list string;
  store_bound : nat
}.

Definition with_session (s : Session) (w : World) : World :=
  {| session := s; store := store w; bound := bound w; store_bound := store_bound w |}.
Definition with_store (st : Store) (w : World) : World :=
  {| session := session w; store := st; bound := bound w; store_bound := store_bound w |}.
Definition with_bound (b : list string) (w : World) : World :=
  {| session := session w; store := store w; bound := b; store_bound := store_bound w |}.

(** ** The monad of synchronous code *)

Inductive Completion (A : Type) :=
| Normal (a : A)
| Throw (e : exn).
Arguments Normal {A} a.
Arguments Throw {A} e.

Definition M (A : Type) : Type := World -> World * Completion A.

Definition ret {A} (a : A) : M A := fun w => (w, Normal a).
Definition throw {A} (e : exn) : M A := fun w => (w, Throw e).
Definition bind {A B} (m : M A) (k : A -> M B) : M B :=
  fun w =>
    match m w with
    | (w', Normal a) => k a w'
    | (w', Throw e) => (w', Throw e)
    end.
Definition gets {A} (f : World -> A) : M A := fun w => (w, Normal (f w)).
Definition modify (f : World -> World) : M unit := fun w => (f w, Normal tt).

#[global] Instance M_ret : MRet M := @ret.
#[global] Instance M_bind : MBind M := fun A B k m => bind m k.

(** [promise.then(onFulfilled, onRejected)], at the turn the promise is
    settled.  An exception thrown by a callback is caught by the
    promise [then] returned, which nobody holds: the callback's effects
    up to the throw stay, and [dflt] stands for what the callback did
    not get to do. *)
Definition then_ {A B} (dflt : B) (p : Settled A)
    (onFulfilled : A -> M B) (onRejected : reason -> M B) : M B :=
  fun w =>
    match p with
    | Resolved a =>
        match onFulfilled a w with
        | (w', Normal b) => (w', Normal b)
        | (w', Throw _) => (w', Normal dflt)
        end
    | Rejected r =>
        match onRejected r w with
        | (w', Normal b) => (w', Normal b)
        | (w', Throw _) => (w', Normal dflt)
        end
    | Pending => (w, Normal dflt)
    end.

(** [new Ember.RSVP.Promise(function(resolve, reject) { ... })] for a
    resolver that touches the world: the body yields the state it put
    the new promise in ([Pending] if it called neither function), and
    an exception escaping it rejects the promise. *)
Definition new_Promise_in {A} (resolver : M (Settled A)) : World -> World * Settled A :=
  fun w =>
    match resolver w with
    | (w', Normal p) => (w', p)
    | (w', Throw e) => (w', Rejected (RThrown e))
    end.

(** ** Store operations *)

Definition store_call (c : StoreCall) (f : Store -> Store) : M unit :=
  modify (fun w =>
    let st := f (store w) in
    with_store {| data := data st; locked := locked st; calls := calls (store w) ++ [c] |} w).

Definition set_data (d : gmap string value) (st : Store) : Store :=
  {| data := d; locked := locked st; calls := calls st |}.
Definition set_locked (b : bool) (st : Store) : Store :=
  {| data := data st; locked := b; calls := calls st |}.

(** Modelled from the spec: the methods of the store (the store classes
    are not among the sources).  [restore()] hands out a fresh object
    holding the persisted properties, [persist] writes the properties
    it is given over those held, [clear] drops them all, [lock] and
    [unlock] set and reset the flag [isLocked] reads. *)
Definition store_restore : M (gmap string value) :=
  store_call CallRestore id ;; gets (fun w => data (store w)).
Definition store_persist (d : gmap string value) : M unit :=
  store_call (CallPersist d) (fun st => set_data (d ∪ data st) st).
Definition store_clear : M unit :=
  store_call CallClear (set_data ∅).
Definition store_lock : M unit :=
  store_call CallLock (set_locked true).
Definition store_unlock : M unit :=
  store_call CallUnlock (set_locked false).
Definition store_isLocked : M bool :=
  store_call CallIsLocked id ;; gets (fun w => locked (store w)).

(** [Ember.$.extend(target, source)]: the properties of [source]
    overwrite those of [target]; a [null] source adds nothing. *)
Definition extend (target : gmap string value) (source : Content) : gmap string value :=
  match source with
  | Some src => src ∪ target
  | None => target
  end.

(** ** Event tables of the authenticators *)

(** [this.container.lookup(name)]; anything but a registered name has
    no authenticator, and calling a method on the result throws. *)
Definition container_lookup (container : Container) (name : value) : M (string * Authenticator) :=
  match name with
  | VStr n =>
      match container n with
      | Some A => ret (n, A)
      | None => throw TypeError
      end
  | _ => throw TypeError
  end.

(** [authenticator.off('ember-simple-auth:session-updated')] removes
    every listener for the event from that authenticator. *)
Definition off (a : string) : M unit :=
  modify (fun w => with_bound (filter (fun x => x ≠ a) (bound w)) w).

(** [authenticator.on('ember-simple-auth:session-updated', ...)] *)
Definition on (a : string) : M unit :=
  modify (fun w => with_bound (a :: bound w) w).

(** ** Session methods *)

Definition setProperties (isAuth : bool) (f : value) (c : Content) : M unit :=
  modify (with_session
    {| isAuthenticated := isAuth; authenticatorFactory := f; content := c |}).

Definition key : string := "authenticatorFactory".

Section WithContainer.

Variable container : Container.

Definition bindToAuthenticatorEvents : M unit :=
  f ← gets (fun w => authenticatorFactory (session w));
  '(a, _) ← container_lookup container f;
  off a ;;
  on a.

Definition setup (authenticatorFactory : value) (content_ : Content) : M unit :=
  setProperties true authenticatorFactory content_ ;;
  bindToAuthenticatorEvents ;;
  data_ ← gets (fun w => extend {[ key := authenticatorFactory ]} (content (session w)));
  isLocked ← store_isLocked;
  if negb isLocked then
    store_lock ;;
    store_clear ;;
    store_persist data_ ;;
    store_unlock
  else
    mret tt.

Definition clear : M unit :=
  setProperties false VNull None ;;
  isLocked ← store_isLocked;
  if negb isLocked then store_clear else mret tt.

(** [new Ember.RSVP.Promise(function(resolve, reject) { ... })] of
    [authenticate]; [resolve()] and [reject(error)] end their
    callbacks, which therefore yield the state of the new promise. *)
Definition authenticate (authenticatorFactory options : value)
    : World -> World * Settled unit :=
  new_Promise_in (
    '(_, A) ← container_lookup container authenticatorFactory;
    then_ Pending (auth_authenticate A options)
      (fun content_ =>
         setup authenticatorFactory content_ ;;
         mret (Resolved tt))
      (fun error =>
         clear ;;
         mret (Rejected error))).

Definition invalidate : World -> World * Settled unit :=
  new_Promise_in (
    f ← gets (fun w => authenticatorFactory (session w));
    '(a, A) ← container_lookup container f;
    c ← gets (fun w => content (session w));
    then_ Pending (auth_invalidate A c)
      (fun _ =>
         off a ;;
         clear ;;
         mret (Resolved tt))
      (fun error =>
         mret (Rejected error))).

(** The listener [bindToAuthenticatorEvents] binds:
    [_this.setup(_this.authenticatorFactory, content)]. *)
Definition authenticator_listener (content_ : Content) : M unit :=
  f ← gets (fun w => authenticatorFactory (session w));
  setup f content_.

(** The listener [bindToStoreEvents] binds on the store. *)
Definition store_listener (content_ : gmap string value) : M unit :=
  let authenticatorFactory := content_ !! key in
  if prop_truthy authenticatorFactory then
    let content_ := delete key content_ in
    '(_, A) ← container_lookup container (default VNull authenticatorFactory);
    then_ tt (auth_restore A content_)
      (fun content_ => setup (default VNull authenticatorFactory) content_)
      (fun _ => clear)
  else
    clear.

Definition bindToStoreEvents : M unit :=
  modify (fun w =>
    {| session := session w; store := store w; bound := bound w;
       store_bound := S (store_bound w) |}).

(** What [this] is inside a function body: the session when the
    function is called as its method; [undefined] when a strict-mode
    function is called plainly, which is how a promise calls its
    callbacks (the file starts with ['use strict']). *)
Inductive this_binding := ThisSession | ThisUndefined.

(** [this.store]: reading a property of [undefined] throws. *)
Definition this_store (this : this_binding) : M unit :=
  match this with
  | ThisSession => mret tt
  | ThisUndefined => throw TypeError
  end.

(** The rejection callback of [init] (lines 79-86): it tests
    [this.store.isLocked()] and clears through [_this.store]. *)
Definition init_onRejected (this : this_binding) : M unit :=
  this_store this ;;
  isLocked ← store_isLocked;
  if negb isLocked then store_clear else mret tt.

Definition init : M unit :=
  bindToStoreEvents ;;
  restoredContent ← store_restore;
  let authenticatorFactory := restoredContent !! key in
  if prop_truthy authenticatorFactory then
    let restoredContent := delete key restoredContent in
    '(_, A) ← container_lookup container (default VNull authenticatorFactory);
    then_ tt (auth_restore A restoredContent)
      (fun content_ => setup (default VNull authenticatorFactory) content_)
      (fun _ => init_onRejected ThisUndefined)
  else
    this_store ThisSession ;;
    isLocked ← store_isLocked;
    if negb isLocked then store_clear else mret tt.

(** [Ember.SimpleAuth.Session.create({ store: ... })]: the defaults,
    no listener bound yet, then [init]. *)
Definition create (st : Store) : World * Completion unit :=
  init {| session := Session_defaults; store := st; bound := []; store_bound := 0 |}.

(** ** Events reaching the session *)

Fixpoint times (n : nat) (m : M unit) : M unit :=
  match n with
  | 0 => mret tt
  | S n' => m ;; times n' m
  end.

(** The authenticator registered as [a] triggers
    ['ember-simple-auth:session-updated']: each listener bound on it
    at that moment is called. *)
Definition authenticator_trigger (a : string) (content_ : Content) : M unit :=
  n ← gets (fun w => length (filter (fun x => x = a) (bound w)));
  times n (authenticator_listener content_).

(** The store triggers ['ember-simple-auth:session-updated']. *)
Definition store_trigger (content_ : gmap string value) : M unit :=
  n ← gets store_bound;
  times n (store_listener content_).

End WithContainer.

(** ** The base authorizer ([authorizers/base.js]) *)

Module Authorizers.
Module Base.

(** The part of a [jqXHR] an authorizer may write to. *)
Record jqXHR := { requestHeaders : list (string * string) }.

Record Authorizer := { session : option Session }.

(** The objects [authorize] has in reach. *)
Record Heap := {
  this : Authorizer;
  request : jqXHR;
  requestOptions : gmap string value
}.

(** [authorize: function(jqXHR, requestOptions) { }]: no statement,
    so nothing is written and the call evaluates to [undefined]
    ([None]). *)
Definition authorize (h : Heap) : Heap * option value := (h, None).

End Base.
End Authorizers.

(** ** Runs of the session *)

(** What reaches a session after its creation.  Each event names the
    container as it answers at that moment (the hooks of an
    authenticator need not answer twice alike).  [OtherWriter] is
    another context rewriting the shared store or its lock. *)
Inductive event :=
| Authenticate (container : Container) (authenticatorFactory options : value)
| Invalidate (container : Container)
| StoreUpdated (container : Container) (properties : gmap string value)
| SessionUpdated (container : Container) (a : string) (content_ : Content)
| OtherWriter (d : gmap string value) (l : bool).

Definition react (e : event) (w : World) : World :=
  match e with
  | Authenticate c f o => fst (authenticate c f o w)
  | Invalidate c => fst (invalidate c w)
  | StoreUpdated c p => fst (store_trigger c p w)
  | SessionUpdated c a ct => fst (authenticator_trigger c a ct w)
  | OtherWriter d l =>
      with_store {| data := d; locked := l; calls := calls (store w) |} w
  end.

Fixpoint run (es : list event) (w : World) : World :=
  match es with
  | [] => w
  | e :: es' => run es' (react e w)
  end.

(** A [session-updated] notification comes from the authenticator the
    session currently names. *)
Definition from_active (e : event) (w : World) : bool :=
  match e with
  | SessionUpdated _ a _ => bool_decide (authenticatorFactory (session w) = VStr a)
  | _ => true
  end.

Fixpoint all_from_active (es : list event) (w : World) : bool :=
  match es with
  | [] => true
  | e :: es' => from_active e w && all_from_active es' (react e w)
  end.

(** ** Sample objects *)

Module Sample.

Definition token (t : string) : gmap string value := {[ "token" := VStr t ]}.

(** Resolves [authenticate] for the options ["ok"] (with a token) and
    ["empty"] (with no value), rejects it otherwise; forwards on
    [restore]; refuses to invalidate. *)
Definition pw : Authenticator :=
  {| auth_restore := fun p => Resolved (Some p);
     auth_authenticate := fun o =>
       match o with
       | VStr "ok" => Resolved (Some (token "T"))
       | VStr "empty" => Resolved None
       | VStr "clash" => Resolved (Some {[ key := VStr "other" ]})
       | _ => Rejected (RValue (VStr "bad-credentials"))
       end;
     auth_invalidate := fun _ => Rejected (RValue (VStr "server-unreachable")) |}.

Definition container : Container :=
  fun n =>
    if String.eqb n "pw" then Some pw
    else if String.eqb n "other" then Some pw
    else if String.eqb n "base" then Some Authenticators.Base.Base
    else None.

Definition empty_store : Store := {| data := ∅; locked := false; calls := [] |}.

(** A store another context left with a record for the base
    authenticator. *)
Definition stale_store : Store :=
  {| data := {[ key := VStr "base"; "token" := VStr "T" ]};
     locked := false; calls := [] |}.

Definition fresh : World := fst (create container empty_store).
Definition signed_in : World :=
  fst (authenticate container (VStr "pw") (VStr "ok") fresh).

End Sample.

(** More sample objects: an authenticator that resolves all three
    hooks, and stores left behind by an earlier session. *)
Module Fixture.

Definition oauth : Authenticator :=
  {| auth_restore := fun p => Resolved (Some p);
     auth_authenticate := fun _ => Resolved (Some (Sample.token "T"));
     auth_invalidate := fun _ => Resolved tt |}.

Definition container : Container :=
  fun n => if String.eqb n "oauth" then Some oauth else Sample.container n.

Definition saved_store : Store :=
  {| data := {[ key := VStr "oauth"; "token" := VStr "T" ]};
     locked := false; calls := [] |}.

(** A record that names an authenticator nobody registered. *)
Definition orphan_store : Store :=
  {| data := {[ key := VStr "gone"; "token" := VStr "T" ]};
     locked := false; calls := [] |}.

(** A record with no [authenticatorFactory], under another writer's
    lock. *)
Definition busy_store : Store :=
  {| data := {[ "token" := VStr "T" ]}; locked := true; calls := [] |}.

Definition signed_in : World :=
  fst (authenticate container (VStr "oauth") VNull (fst (create container Sample.empty_store))).

End Fixture.

(** ** Notions used in the statements *)

(** A computation that leaves the fields of the session alone. *)
Definition frame {A} (m : M A) : Prop :=
  forall w, session (fst (m w)) = session w.

(** The store after the guarded erase of [clear]. *)
Definition erased (st : Store) : Store :=
  if locked st
  then {| data := data st; locked := true; calls := calls st ++ [CallIsLocked] |}
  else {| data := ∅; locked := false; calls := calls st ++ [CallIsLocked; CallClear] |}.

(** The store after the guarded persist of [setup]. *)
Definition persisted (record : gmap string value) (st : Store) : Store :=
  if locked st
  then {| data := data st; locked := true; calls := calls st ++ [CallIsLocked] |}
  else {| data := record ∪ ∅; locked := false;
          calls := calls st ++
            [CallIsLocked; CallLock; CallClear; CallPersist record; CallUnlock] |}.

(** A computation that keeps a property of the session fields, whether
    it completes or throws. *)
Definition preserves {A} (P : Session -> Prop) (m : M A) : Prop :=
  forall w, P (session w) -> P (session (fst (m w))).

(** Either authenticated under a named authenticator, or blank. *)
Definition consistent (s : Session) : Prop :=
  (isAuthenticated s = true /\ exists a, authenticatorFactory s = VStr a) \/
  s = Session_defaults.

(** An unauthenticated session has the other two fields null. *)
Definition blank_unless_authenticated (s : Session) : Prop :=
  isAuthenticated s = false -> authenticatorFactory s = VNull /\ content s = None.

(** A value under which the container has no authenticator. *)
Definition unknown (container : Container) (f : value) : Prop :=
  forall a, f = VStr a -> container a = None.

(** The world a [setup] under a registered name leaves. *)
Definition set_up (a : string) (ct : Content) (w : World) : World :=
  {| session := {| isAuthenticated := true; authenticatorFactory := VStr a;
                   content := ct |};
     store := persisted (extend {[ key := VStr a ]} ct) (store w);
     bound := a :: filter (fun x => x ≠ a) (bound w);
     store_bound := store_bound w |}.

(** The world [clear] leaves. *)
Definition cleared (w : World) : World :=
  {| session := Session_defaults; store := erased (store w);
     bound := bound w; store_bound := store_bound w |}.

(** The world once [init] has bound the store listener and read the
    store. *)
Definition booted (st : Store) : World :=
  {| session := Session_defaults;
     store := {| data := data st; locked := locked st;
                 calls := calls st ++ [CallRestore] |};
     bound := [];
     store_bound := 1 |}.

(** The ways a callback of the session changes the world: a [setup]
    that went through, a [clear], the unbinding and [clear] of a
    successful [invalidate], and a [setup] that threw when it looked up
    the authenticator to bind to, after it had written the fields. *)
Inductive effect (w : World) : World -> Prop :=
| effect_setup a ct : effect w (set_up a ct w)
| effect_clear : effect w (cleared w)
| effect_unbind_clear a :
    effect w (cleared (with_bound (filter (fun x => x ≠ a) (bound w)) w))
| effect_fields ct :
    effect w (with_session
      {| isAuthenticated := true;
         authenticatorFactory := authenticatorFactory (session w);
         content := ct |} w).

(** Events of the session's own doing, as opposed to another writer's. *)
Definition own (e : event) : bool :=
  match e with
  | OtherWriter _ _ => false
  | _ => true
  end.

(** Every authenticator carries at most one listener of the session,
    and the one the session names carries one. *)
Definition listeners_in_order (w : World) : Prop :=
  NoDup (bound w) /\
  forall a, authenticatorFactory (session w) = VStr a -> a ∈ bound w.

(** * Properties *)

(** ** Unfolding the monad *)

Ltac unfold_M :=
  unfold mbind, M_bind, mret, M_ret, bind, ret, throw, gets, modify in *.

Ltac unfold_store :=
  unfold store_isLocked, store_clear, store_lock, store_unlock, store_persist,
    store_restore in *.

Lemma frame_ret {A} (a : A) : frame (mret a).
Proof. by intros w. Qed.

Lemma frame_throw {A} e : frame (@throw A e).
Proof. by intros w. Qed.

Lemma frame_gets {A} (f : World -> A) : frame (gets f).
Proof. by intros w. Qed.

Lemma frame_bind {A B} (m : M A) (k : A -> M B) :
  frame m -> (forall a, frame (k a)) -> frame (m ≫= k).
Proof.
  intros Hm Hk w. unfold_M. specialize (Hm w).
  destruct (m w) as [w' [a|e]]; simpl in *; [|done].
  by rewrite Hk.
Qed.

Lemma frame_store_call c f : frame (store_call c f).
Proof. by intros w. Qed.

Lemma frame_on a : frame (on a).
Proof. by intros w. Qed.

Lemma frame_off a : frame (off a).
Proof. by intros w. Qed.

Lemma frame_container_lookup c f : frame (container_lookup c f).
Proof. intros w. unfold container_lookup. by repeat case_match. Qed.

Lemma frame_if {A} (b : bool) (m1 m2 : M A) :
  frame m1 -> frame m2 -> frame (if b then m1 else m2).
Proof. by destruct b. Qed.

Create HintDb frame.
#[global] Hint Resolve frame_ret frame_throw frame_gets frame_store_call
  frame_on frame_off frame_container_lookup frame_if : frame.

Ltac frame_tac :=
  repeat first
    [ apply frame_bind; [|intros ?]
    | progress auto with frame
    | match goal with |- frame (match ?x with _ => _ end) => destruct x end ].

Lemma frame_store_isLocked : frame store_isLocked.
Proof. unfold store_isLocked. frame_tac. Qed.

Lemma frame_store_guarded_clear :
  frame (isLocked ← store_isLocked; if negb isLocked then store_clear else mret tt).
Proof. unfold_store. frame_tac. Qed.

Lemma frame_bindToAuthenticatorEvents c : frame (bindToAuthenticatorEvents c).
Proof. unfold bindToAuthenticatorEvents. frame_tac. Qed.

(** [setup] leaves the session with exactly the three fields it was
    given, also when binding the listener throws. *)
Lemma setup_session c f ct w :
  session (fst (setup c f ct w)) =
  {| isAuthenticated := true; authenticatorFactory := f; content := ct |}.
Proof.
  unfold setup.
  set (rest := (_ ;; _) : M unit) at 1.
  assert (Hrest : frame (bindToAuthenticatorEvents c ≫= fun _ : unit =>
    data_ ← gets (fun w => extend {[ key := f ]} (content (session w)));
    isLocked ← store_isLocked;
    if negb isLocked
    then store_lock ;; store_clear ;; store_persist data_ ;; store_unlock
    else mret tt)).
  { pose proof (frame_bindToAuthenticatorEvents c). unfold_store. frame_tac. }
  subst rest. unfold mbind at 1. unfold M_bind, bind at 1.
  unfold setProperties, modify at 1. simpl.
  apply (Hrest (with_session _ w)).
Qed.

Lemma clear_session w : session (fst (clear w)) = Session_defaults.
Proof.
  unfold clear. unfold mbind at 1. unfold M_bind, bind at 1.
  unfold setProperties, modify at 1. simpl.
  apply (frame_store_guarded_clear (with_session _ w)).
Qed.

(** ** What [clear] and [setup] do to the world *)

Lemma clear_eq w :
  clear w =
  ({| session := Session_defaults; store := erased (store w);
      bound := bound w; store_bound := store_bound w |}, Normal tt).
Proof.
  unfold clear, erased, setProperties. unfold_store. unfold store_call. unfold_M.
  destruct w as [s [d l cs] b n]; simpl.
  destruct l; simpl; unfold with_store, with_session, set_data; simpl;
    by rewrite <- ?app_assoc.
Qed.

Lemma setup_eq c a A ct w :
  c a = Some A ->
  setup c (VStr a) ct w =
  ({| session := {| isAuthenticated := true; authenticatorFactory := VStr a;
                    content := ct |};
      store := persisted (extend {[ key := VStr a ]} ct) (store w);
      bound := a :: filter (fun x => x ≠ a) (bound w);
      store_bound := store_bound w |}, Normal tt).
Proof.
  intros Ha.
  unfold setup, persisted, bindToAuthenticatorEvents, setProperties, on, off,
    container_lookup.
  unfold_store. unfold store_call. unfold_M.
  destruct w as [s [d l cs] b n]; simpl. rewrite Ha; simpl.
  destruct l; simpl; unfold with_store, with_session, set_data, set_locked; simpl;
    by rewrite <- ?app_assoc.
Qed.

(** ** The base authenticator *)

Import Authenticators.

(** C9: whatever it is given, each of [restore], [authenticate] and
    [invalidate] of the base authenticator returns a promise that
    rejects and never one that resolves. *)
Theorem Base_hooks_always_reject :
  forall (properties : gmap string value) (options : value) (content_ : Content),
    (exists r, auth_restore Base.Base properties = Rejected r) /\
    (exists r, auth_authenticate Base.Base options = Rejected r) /\
    (exists r, auth_invalidate Base.Base content_ = Rejected r) /\
    (forall x, auth_restore Base.Base properties <> Resolved x) /\
    (forall x, auth_authenticate Base.Base options <> Resolved x) /\
    (forall x, auth_invalidate Base.Base content_ <> Resolved x).
Proof.
  intros properties options content_. simpl.
  unfold Base.restore, Base.authenticate, Base.invalidate, new_Promise.
  repeat split; eauto; intros x; discriminate.
Qed.

(** ** The base authorizer *)

(** C10: [authorize] of the base authorizer returns nothing, leaves the
    authorizer, the request and the options as they were, and its
    outcome does not depend on the session the authorizer holds. *)
Theorem Base_authorize_does_nothing :
  forall (s1 s2 : option Session) (jqXHR : Authorizers.Base.jqXHR)
         (requestOptions : gmap string value),
    let h s := {| Authorizers.Base.this := {| Authorizers.Base.session := s |};
                  Authorizers.Base.request := jqXHR;
                  Authorizers.Base.requestOptions := requestOptions |} in
    Authorizers.Base.authorize (h s1) = (h s1, None) /\
    Authorizers.Base.request (fst (Authorizers.Base.authorize (h s1))) =
      Authorizers.Base.request (fst (Authorizers.Base.authorize (h s2))) /\
    Authorizers.Base.requestOptions (fst (Authorizers.Base.authorize (h s1))) =
      Authorizers.Base.requestOptions (fst (Authorizers.Base.authorize (h s2))) /\
    snd (Authorizers.Base.authorize (h s1)) = snd (Authorizers.Base.authorize (h s2)).
Proof. intros s1 s2 jqXHR requestOptions h. by repeat split. Qed.

(** ** Rejections *)

(** C4: when the promise of the active authenticator's [invalidate]
    rejects with [E], [invalidate] leaves the whole world as it was
    (the three session fields, the store and its call record, the
    listeners) and the promise it returns rejects with [E]. *)
Theorem invalidate_rejected_changes_nothing
    (container : Container) (w : World) (a : string) (A : Authenticator) (E : reason) :
  isAuthenticated (session w) = true ->
  authenticatorFactory (session w) = VStr a ->
  container a = Some A ->
  auth_invalidate A (content (session w)) = Rejected E ->
  invalidate container w = (w, Rejected E).
Proof.
  intros _ Hf Ha HE.
  unfold invalidate, new_Promise_in, then_, container_lookup. unfold_M.
  rewrite Hf, Ha. simpl. by rewrite HE.
Qed.

Lemma invalidate_rejected_changes_nothing_witness :
  invalidate Sample.container Sample.signed_in =
  (Sample.signed_in, Rejected (RValue (VStr "server-unreachable"))).
Proof.
  apply (invalidate_rejected_changes_nothing
           Sample.container Sample.signed_in "pw" Sample.pw);
    vm_compute; reflexivity.
Defined.

(** C5: when the promise of the chosen authenticator's [authenticate]
    rejects with [E], [authenticate] does what [clear] does, leaving
    the session unauthenticated with [authenticatorFactory] and
    [content] null, and the promise it returns rejects with that same
    [E]. *)
Theorem authenticate_rejected_clears
    (container : Container) (w : World) (a : string) (A : Authenticator)
    (options : value) (E : reason) :
  container a = Some A ->
  auth_authenticate A options = Rejected E ->
  authenticate container (VStr a) options w = (fst (clear w), Rejected E) /\
  session (fst (clear w)) =
    {| isAuthenticated := false; authenticatorFactory := VNull; content := None |}.
Proof.
  intros Ha HE. split; [|by rewrite clear_eq].
  unfold authenticate, new_Promise_in, then_, container_lookup.
  unfold mbind at 1. unfold M_bind, bind at 1. unfold throw, mret, M_ret, ret.
  rewrite Ha. simpl. rewrite HE.
  unfold mbind, M_bind, bind. by rewrite clear_eq.
Qed.

Lemma authenticate_rejected_clears_witness :
  authenticate Sample.container (VStr "pw") (VStr "wrong") Sample.signed_in =
    (fst (clear Sample.signed_in), Rejected (RValue (VStr "bad-credentials"))) /\
  session (fst (clear Sample.signed_in)) =
    {| isAuthenticated := false; authenticatorFactory := VNull; content := None |}.
Proof.
  apply (authenticate_rejected_clears Sample.container Sample.signed_in "pw" Sample.pw);
    reflexivity.
Defined.

(** ** The guard on store writes *)

(** C2, as the code has it: with the store locked, [setup] and [clear]
    only ask [isLocked()] and write nothing; with the store unlocked,
    [setup] calls [lock()], [clear()], [persist(record)], [unlock()] in
    that order with nothing in between, and [clear] calls the store's
    [clear()] alone, with no [lock()] before it and no [unlock()] after
    it. *)
Theorem store_writes_are_guarded
    (container : Container) (a : string) (A : Authenticator) (ct : Content) (w : World) :
  container a = Some A ->
  let record := extend {[ key := VStr a ]} ct in
  let after_setup := store (fst (setup container (VStr a) ct w)) in
  let after_clear := store (fst (clear w)) in
  (locked (store w) = true ->
     calls after_setup = calls (store w) ++ [CallIsLocked] /\
     data after_setup = data (store w) /\
     calls after_clear = calls (store w) ++ [CallIsLocked] /\
     data after_clear = data (store w)) /\
  (locked (store w) = false ->
     calls after_setup = calls (store w) ++
       [CallIsLocked; CallLock; CallClear; CallPersist record; CallUnlock] /\
     calls after_clear = calls (store w) ++ [CallIsLocked; CallClear]).
Proof.
  intros Ha record after_setup after_clear.
  subst after_setup after_clear. rewrite (setup_eq _ _ _ _ _ Ha), clear_eq. simpl.
  unfold persisted, erased.
  split; intros ->; by repeat split.
Qed.

Lemma store_writes_are_guarded_witness :
  let w := Sample.fresh in
  let record := extend {[ key := VStr "pw" ]} (Some (Sample.token "T")) in
  let after_setup :=
    store (fst (setup Sample.container (VStr "pw") (Some (Sample.token "T")) w)) in
  let after_clear := store (fst (clear w)) in
  (locked (store w) = true ->
     calls after_setup = calls (store w) ++ [CallIsLocked] /\
     data after_setup = data (store w) /\
     calls after_clear = calls (store w) ++ [CallIsLocked] /\
     data after_clear = data (store w)) /\
  (locked (store w) = false ->
     calls after_setup = calls (store w) ++
       [CallIsLocked; CallLock; CallClear; CallPersist record; CallUnlock] /\
     calls after_clear = calls (store w) ++ [CallIsLocked; CallClear]).
Proof.
  apply (store_writes_are_guarded Sample.container "pw" Sample.pw). reflexivity.
Defined.

(** C2 as stated has the pure-clear case run between [lock()] and
    [unlock()]; on an unlocked store [clear] calls neither. *)
Lemma clear_does_not_lock :
  locked (store Sample.signed_in) = false /\
  calls (store (fst (clear Sample.signed_in))) =
    calls (store Sample.signed_in) ++ [CallIsLocked; CallClear] /\
  (CallLock ∉ [CallIsLocked; CallClear]) /\
  (CallUnlock ∉ [CallIsLocked; CallClear]) /\
  calls (store (fst (clear Sample.signed_in))) <>
    calls (store Sample.signed_in) ++ [CallIsLocked; CallLock; CallClear; CallUnlock].
Proof.
  rewrite clear_eq. unfold erased.
  assert (Hl : locked (store Sample.signed_in) = false) by reflexivity.
  simpl store. rewrite Hl.
  split; [done|]. split; [done|].
  split; [by apply not_elem_of_cons; split; [|apply not_elem_of_cons; split; [|apply not_elem_of_nil]]|].
  split; [by apply not_elem_of_cons; split; [|apply not_elem_of_cons; split; [|apply not_elem_of_nil]]|].
  simpl calls. intros H. apply app_inv_head in H. discriminate H.
Qed.

(** ** Notifications from the store *)

(** C7: when the store notifies properties that carry no
    [authenticatorFactory], or one whose authenticator rejects the
    [restore], the listener does what [clear] does whatever the lock
    says: the session ends unauthenticated with both other fields
    null, and on an unlocked store the store's [clear()] is called. *)
Theorem store_update_without_authenticator_clears
    (container : Container) (properties : gmap string value) (w : World) :
  store_bound w = 1 ->
  (prop_truthy (properties !! key) = false \/
   exists a A e,
     properties !! key = Some (VStr a) /\ a <> "" /\ container a = Some A /\
     auth_restore A (delete key properties) = Rejected e) ->
  store_trigger container properties w = clear w /\
  session (fst (clear w)) =
    {| isAuthenticated := false; authenticatorFactory := VNull; content := None |} /\
  (locked (store w) = false ->
     data (store (fst (clear w))) = ∅ /\
     calls (store (fst (clear w))) = calls (store w) ++ [CallIsLocked; CallClear]).
Proof.
  intros Hb Hcase. rewrite clear_eq. simpl. split; [|split; [done|]].
  - unfold store_trigger. unfold mbind at 1. unfold M_bind, bind, gets.
    rewrite Hb. simpl. unfold mbind, M_bind, bind, mret, M_ret, ret.
    assert (Hl : store_listener container properties w = clear w).
    { unfold store_listener. destruct Hcase as [Hf | (a & A & e & Hk & Hne & Ha & Hr)].
      - by rewrite Hf.
      - rewrite Hk. simpl. apply String.eqb_neq in Hne. rewrite Hne. simpl.
        unfold container_lookup, mbind, M_bind, bind, mret, M_ret, ret.
        rewrite Ha. simpl. unfold then_. rewrite Hr. by rewrite clear_eq. }
    by rewrite Hl, clear_eq, Hb.
  - unfold erased. by intros ->.
Qed.

Lemma store_update_without_authenticator_clears_witness :
  store_trigger Sample.container ∅ Sample.signed_in = clear Sample.signed_in /\
  session (fst (clear Sample.signed_in)) =
    {| isAuthenticated := false; authenticatorFactory := VNull; content := None |} /\
  (locked (store Sample.signed_in) = false ->
     data (store (fst (clear Sample.signed_in))) = ∅ /\
     calls (store (fst (clear Sample.signed_in))) =
       calls (store Sample.signed_in) ++ [CallIsLocked; CallClear]).
Proof.
  apply (store_update_without_authenticator_clears Sample.container ∅ Sample.signed_in).
  - reflexivity.
  - left. reflexivity.
Defined.

(** ** Restoring at start-up *)

(** Called by the promise, the rejection callback of [init] throws at
    [this.store], whatever the lock says, and touches nothing. *)
Lemma init_onRejected_throws w :
  init_onRejected ThisUndefined w = (w, Throw TypeError).
Proof. reflexivity. Qed.

(** C6, evaluated: a new session over an unlocked store whose record
    names an authenticator that rejects the [restore].  The rejection
    callback reads [this.store] with [this] undefined and throws before
    it has asked [isLocked()]: the store keeps its record, and the only
    call it received is [restore()].  Nothing reaches the caller. *)
Theorem init_rejected_restore_leaves_unlocked_store :
  let res := create Sample.container Sample.stale_store in
  locked Sample.stale_store = false /\
  auth_restore Base.Base (delete key (data Sample.stale_store)) = Rejected RUndefined /\
  snd res = Normal tt /\
  data (store (fst res)) = data Sample.stale_store /\
  calls (store (fst res)) = [CallRestore] /\
  session (fst res) = Session_defaults.
Proof. vm_compute. by repeat split. Qed.

(** ** Session fields along a run *)

Lemma preserves_frame {A} P (m : M A) : frame m -> preserves P m.
Proof. intros Hm w Hw. by rewrite Hm. Qed.

Lemma preserves_bind {A B} P (m : M A) (k : A -> M B) :
  preserves P m -> (forall a, preserves P (k a)) -> preserves P (m ≫= k).
Proof.
  intros Hm Hk w Hw. unfold_M. specialize (Hm w Hw).
  destruct (m w) as [w' [a|e]]; simpl in *; [|done].
  by apply Hk.
Qed.

Lemma preserves_then {A B} P (dflt : B) (p : Settled A) f g :
  (forall a, preserves P (f a)) -> (forall r, preserves P (g r)) ->
  preserves P (then_ dflt p f g).
Proof.
  intros Hf Hg w Hw. unfold then_. destruct p as [a|r|]; [| |done].
  - specialize (Hf a w Hw). by destruct (f a w) as [w' [b|e]].
  - specialize (Hg r w Hw). by destruct (g r w) as [w' [b|e]].
Qed.

Lemma preserves_new_Promise_in {A} P (m : M (Settled A)) w :
  preserves P m -> P (session w) -> P (session (fst (new_Promise_in m w))).
Proof.
  intros Hm Hw. unfold new_Promise_in. specialize (Hm w Hw).
  by destruct (m w) as [w' [p|e]].
Qed.

Lemma preserves_setup P c f ct :
  P {| isAuthenticated := true; authenticatorFactory := f; content := ct |} ->
  preserves P (setup c f ct).
Proof. intros HP w _. by rewrite setup_session. Qed.

Lemma preserves_clear P : P Session_defaults -> preserves P clear.
Proof. intros HP w _. by rewrite clear_session. Qed.

Lemma preserves_times P n m : preserves P m -> preserves P (times n m).
Proof.
  intros Hm. induction n as [|n IH]; simpl.
  - by apply preserves_frame, frame_ret.
  - apply preserves_bind; [done|]. by intros _.
Qed.

Section Preservation.

Variable P : Session -> Prop.
Hypothesis P_setup : forall a ct,
  P {| isAuthenticated := true; authenticatorFactory := VStr a; content := ct |}.
Hypothesis P_clear : P Session_defaults.

Lemma preserves_lookup_then {B} c f (k : string -> Authenticator -> M B) :
  (forall a A, f = VStr a -> preserves P (k a A)) ->
  preserves P ('(a, A) ← container_lookup c f; k a A).
Proof.
  intros Hk w Hw. unfold container_lookup. unfold_M.
  destruct f as [| | |a]; try done.
  destruct (c a) as [A|]; [|done]. by apply (Hk a A).
Qed.

Lemma authenticate_preserves c f o w :
  P (session w) -> P (session (fst (authenticate c f o w))).
Proof.
  apply preserves_new_Promise_in.
  apply (preserves_lookup_then c f (fun _ A => then_ _ _ _ _)).
  intros a A ->. apply preserves_then; intros x; apply preserves_bind.
  - by apply preserves_setup.
  - intros _. by apply preserves_frame, frame_ret.
  - by apply preserves_clear.
  - intros _. by apply preserves_frame, frame_ret.
Qed.

Lemma invalidate_preserves c w :
  P (session w) -> P (session (fst (invalidate c w))).
Proof.
  apply preserves_new_Promise_in.
  apply preserves_bind; [by apply preserves_frame, frame_gets|]. intros f.
  apply (preserves_lookup_then c f (fun a A => _ ≫= _)).
  intros a A ->. apply preserves_bind; [by apply preserves_frame, frame_gets|].
  intros ct. apply preserves_then; intros x.
  - apply preserves_bind; [by apply preserves_frame, frame_off|]. intros _.
    apply preserves_bind; [by apply preserves_clear|]. intros _.
    by apply preserves_frame, frame_ret.
  - by apply preserves_frame, frame_ret.
Qed.

Lemma store_listener_preserves c p : preserves P (store_listener c p).
Proof.
  unfold store_listener. destruct (prop_truthy (p !! key)); [|by apply preserves_clear].
  apply (preserves_lookup_then c _ (fun _ A => then_ _ _ _ _)).
  intros a A ->. apply preserves_then; intros x.
  - by apply preserves_setup.
  - by apply preserves_clear.
Qed.

Lemma init_preserves c : preserves P (init c).
Proof.
  unfold init.
  apply preserves_bind; [by apply preserves_frame|]. intros _.
  apply preserves_bind; [apply preserves_frame; unfold_store; frame_tac|]. intros p.
  destruct (prop_truthy (p !! key)).
  - apply (preserves_lookup_then c _ (fun _ A => then_ _ _ _ _)).
    intros a A ->. apply preserves_then; intros x.
    + by apply preserves_setup.
    + apply preserves_frame. unfold init_onRejected.
      apply frame_bind; [by destruct ThisUndefined|]. intros _.
      apply frame_store_guarded_clear.
  - apply preserves_frame. apply frame_bind; [apply frame_ret|]. intros _.
    apply frame_store_guarded_clear.
Qed.

(** The listener on an authenticator hands [setup] whatever
    [authenticatorFactory] holds at that moment. *)
Lemma authenticator_trigger_preserves c a ct w :
  (forall ct', P {| isAuthenticated := true;
                    authenticatorFactory := authenticatorFactory (session w);
                    content := ct' |}) ->
  P (session w) -> P (session (fst (authenticator_trigger c a ct w))).
Proof.
  intros Hf. unfold authenticator_trigger. unfold mbind at 1. unfold M_bind, bind, gets.
  generalize (length (filter (fun x => x = a) (bound w))). intros n.
  revert w Hf. induction n as [|n IH]; intros w Hf Hw; simpl; [done|].
  unfold mbind, M_bind, bind.
  pose proof (setup_session c (authenticatorFactory (session w)) ct w) as Hs.
  unfold authenticator_listener at 1. unfold mbind, M_bind, bind, gets.
  destruct (setup c (authenticatorFactory (session w)) ct w) as [w' [[]|e]];
    simpl in *.
  - apply IH; rewrite Hs; simpl; by auto.
  - rewrite Hs. by apply Hf.
Qed.

Lemma react_preserves e w :
  (forall c a ct, e = SessionUpdated c a ct ->
     forall ct', P {| isAuthenticated := true;
                      authenticatorFactory := authenticatorFactory (session w);
                      content := ct' |}) ->
  P (session w) -> P (session (react e w)).
Proof.
  intros He Hw. destruct e as [c f o|c|c p|c a ct|d l]; simpl.
  - by apply authenticate_preserves.
  - by apply invalidate_preserves.
  - unfold store_trigger.
    apply (preserves_bind P (gets store_bound)); [by apply preserves_frame| |done].
    intros n. apply preserves_times, store_listener_preserves.
  - apply authenticator_trigger_preserves; [|done]. by apply (He c a ct).
  - done.
Qed.

End Preservation.

Lemma create_consistent c st : consistent (session (fst (create c st))).
Proof.
  unfold create. apply (init_preserves consistent).
  - intros a ct. left. eauto.
  - by right.
Qed.

Lemma run_consistent es w :
  all_from_active es w = true ->
  consistent (session w) -> consistent (session (run es w)).
Proof.
  revert w. induction es as [|e es IH]; intros w Hes Hw; simpl in *; [done|].
  apply andb_prop in Hes as [He Hes]. apply IH; [done|].
  apply react_preserves; try done.
  - intros a ct. left. eauto.
  - by right.
  - intros c a ct -> ct'. simpl in He. apply bool_decide_eq_true in He.
    rewrite He. left. eauto.
Qed.

(** Without any condition on who sends [session-updated]: whenever
    [isAuthenticated] is false the other two fields are null. *)
Lemma run_blank_unless_authenticated c st es :
  blank_unless_authenticated (session (run es (fst (create c st)))).
Proof.
  assert (H0 : blank_unless_authenticated (session (fst (create c st)))).
  { apply (init_preserves blank_unless_authenticated); by intros. }
  revert H0. generalize (fst (create c st)).
  induction es as [|e es IH]; intros w Hw; simpl; [done|].
  apply IH. apply react_preserves; try done; by intros.
Qed.

(** C1, as the code has it: in every state a new session reaches
    through [authenticate], [invalidate], store notifications and
    [session-updated] notifications of the authenticator it currently
    names, while other writers touch the store, [isAuthenticated] is
    true exactly when [authenticatorFactory] is non-null, and when it
    is false [content] is null as well. *)
Theorem session_fields_agree (container : Container) (st : Store) (es : list event) :
  all_from_active es (fst (create container st)) = true ->
  let s := session (run es (fst (create container st))) in
  (isAuthenticated s = true <-> authenticatorFactory s <> VNull) /\
  (isAuthenticated s = false -> authenticatorFactory s = VNull /\ content s = None).
Proof.
  intros Hes s.
  pose proof (run_consistent es _ Hes (create_consistent container st)) as Hc.
  fold s in Hc. destruct Hc as [[Ht [a Ha]] | Hd].
  - rewrite Ht, Ha. split; [split; [discriminate|done]|discriminate].
  - rewrite Hd. simpl. split; [split; [discriminate|done]|done].
Qed.

Lemma session_fields_agree_witness :
  let es := [ Authenticate Sample.container (VStr "pw") (VStr "ok");
              SessionUpdated Sample.container "pw" (Some (Sample.token "T2"));
              OtherWriter ∅ true;
              Invalidate Sample.container;
              StoreUpdated Sample.container ∅ ] in
  let s := session (run es (fst (create Sample.container Sample.empty_store))) in
  (isAuthenticated s = true <-> authenticatorFactory s <> VNull) /\
  (isAuthenticated s = false -> authenticatorFactory s = VNull /\ content s = None).
Proof.
  apply (session_fields_agree Sample.container Sample.empty_store). reflexivity.
Defined.

(** C1 as stated asks for non-null [content] whenever
    [isAuthenticated] is true; [setup] stores whatever the
    authenticator resolved with. *)
Lemma authenticated_with_null_content :
  let es := [ Authenticate Sample.container (VStr "pw") (VStr "empty") ] in
  let s := session (run es (fst (create Sample.container Sample.empty_store))) in
  auth_authenticate Sample.pw (VStr "empty") = Resolved None /\
  isAuthenticated s = true /\
  content s = None /\
  ~ (isAuthenticated s = true <->
     authenticatorFactory s <> VNull /\ content s <> None).
Proof.
  vm_compute. repeat split. intros [H _]. by destruct (H eq_refl) as [_ H'].
Qed.

(** ** Listeners on the authenticators *)

(** C3, evaluated: after [authenticate] resolved with one authenticator
    and then with another, two listeners are bound, one of them on the
    authenticator that is no longer active; when that one sends
    [session-updated] its content is taken over under the name of the
    other. *)
Theorem listener_stays_on_previous_authenticator :
  let w1 := fst (authenticate Sample.container (VStr "pw") (VStr "ok") Sample.fresh) in
  let w2 := fst (authenticate Sample.container (VStr "other") (VStr "ok") w1) in
  let w3 := fst (authenticator_trigger Sample.container "pw"
                   (Some (Sample.token "T2")) w2) in
  bound w1 = ["pw"] /\
  authenticatorFactory (session w2) = VStr "other" /\
  bound w2 = ["other"; "pw"] /\
  session w3 = {| isAuthenticated := true; authenticatorFactory := VStr "other";
                  content := Some (Sample.token "T2") |}.
Proof. vm_compute. by repeat split. Qed.

(** The same leftover after a failed [authenticate]: [clear] unbinds
    nothing, and a later [session-updated] of the old authenticator
    runs [setup] with a null [authenticatorFactory]. *)
Lemma listener_survives_clear :
  let w1 := fst (authenticate Sample.container (VStr "pw") (VStr "wrong")
                   Sample.signed_in) in
  let res := authenticator_trigger Sample.container "pw"
               (Some (Sample.token "T2")) w1 in
  session w1 = Session_defaults /\
  bound w1 = ["pw"] /\
  session (fst res) = {| isAuthenticated := true; authenticatorFactory := VNull;
                         content := Some (Sample.token "T2") |} /\
  snd res = Throw TypeError.
Proof. vm_compute. by repeat split. Qed.

(** ** From [authenticate] to a new session *)

(** The record [setup] persists for a bag that has no
    [authenticatorFactory] of its own. *)
Lemma record_of_content (C : gmap string value) (id : string) :
  C !! key = None ->
  extend {[ key := VStr id ]} (Some C) ∪ ∅ = <[ key := VStr id ]> C /\
  delete key (<[ key := VStr id ]> C) = C.
Proof.
  intros HC. simpl. split.
  - rewrite (right_id_L ∅ (∪)), insert_union_singleton_l.
    apply map_union_comm. by apply map_disjoint_singleton_r.
  - by rewrite delete_insert_eq, delete_id.
Qed.

(** C8, as the code has it: for a non-empty registered name [id] and a
    bag [C] without an [authenticatorFactory] key of its own, an
    [authenticate(id, options)] that resolves with [C] while the store
    is unlocked persists [C] plus the name under
    [authenticatorFactory]; a new session over that store, with an
    authenticator whose [restore] forwards its argument, strips the
    name, hands [C] to [restore] and ends authenticated with
    [authenticatorFactory] equal to [id] and [content] equal to [C]. *)
Theorem authenticate_then_new_session
    (container container' : Container) (w : World) (id : string)
    (A A' : Authenticator) (options : value) (C : gmap string value) :
  id <> "" ->
  container id = Some A ->
  auth_authenticate A options = Resolved (Some C) ->
  C !! key = None ->
  locked (store w) = false ->
  container' id = Some A' ->
  forwarding A' ->
  let res := authenticate container (VStr id) options w in
  let w' := fst (create container' (store (fst res))) in
  snd res = Resolved tt /\
  data (store (fst res)) = <[ key := VStr id ]> C /\
  delete key (data (store (fst res))) = C /\
  session w' = {| isAuthenticated := true; authenticatorFactory := VStr id;
                  content := Some C |}.
Proof.
  intros Hid Ha HC Hkey Hl Ha' Hfw res w'.
  destruct (record_of_content C id Hkey) as [Hrec Hdel].
  assert (Hres : res =
    ({| session := {| isAuthenticated := true; authenticatorFactory := VStr id;
                      content := Some C |};
        store := persisted (extend {[ key := VStr id ]} (Some C)) (store w);
        bound := id :: filter (fun x => x ≠ id) (bound w);
        store_bound := store_bound w |}, Resolved tt)).
  { subst res. unfold authenticate, new_Promise_in, then_, container_lookup.
    unfold mbind at 1. unfold M_bind, bind at 1. unfold throw, mret, M_ret, ret.
    rewrite Ha. simpl. rewrite HC.
    unfold mbind, M_bind, bind. by rewrite (setup_eq _ _ _ _ _ Ha). }
  assert (Hdata : data (store (fst res)) = <[ key := VStr id ]> C).
  { rewrite Hres. simpl. unfold persisted. rewrite Hl. simpl. apply Hrec. }
  split; [by rewrite Hres|]. split; [done|]. split; [by rewrite Hdata|].
  subst w'. unfold create, init, bindToStoreEvents. unfold_store. unfold store_call.
  unfold mbind at 1. unfold M_bind, bind at 1. unfold modify at 1.
  unfold mbind at 1. unfold M_bind, bind at 1.
  unfold mbind at 1. unfold M_bind, bind at 1. unfold modify at 1. unfold gets at 1.
  simpl. rewrite Hdata, lookup_insert_eq. simpl.
  apply String.eqb_neq in Hid. rewrite Hid. simpl.
  unfold container_lookup. unfold mbind at 1. unfold M_bind, bind at 1.
  rewrite Ha'. unfold mret, M_ret, ret, then_.
  rewrite Hfw, Hdel. by rewrite (setup_eq _ _ _ _ _ Ha').
Qed.

Lemma authenticate_then_new_session_witness :
  let res := authenticate Sample.container (VStr "pw") (VStr "ok") Sample.fresh in
  let w' := fst (create Sample.container (store (fst res))) in
  snd res = Resolved tt /\
  data (store (fst res)) = <[ key := VStr "pw" ]> (Sample.token "T") /\
  delete key (data (store (fst res))) = Sample.token "T" /\
  session w' = {| isAuthenticated := true; authenticatorFactory := VStr "pw";
                  content := Some (Sample.token "T") |}.
Proof.
  apply (authenticate_then_new_session Sample.container Sample.container
           Sample.fresh "pw" Sample.pw Sample.pw (VStr "ok")).
  - discriminate.
  - reflexivity.
  - reflexivity.
  - reflexivity.
  - reflexivity.
  - reflexivity.
  - intros p. reflexivity.
Defined.

(** C8 as stated, for every content and whatever the lock says: a bag
    that has an [authenticatorFactory] key of its own overwrites the
    injected name in the record, and a locked store receives no record
    at all. *)
Lemma new_session_differs :
  let C := {[ key := VStr "other" ]} : gmap string value in
  let res := authenticate Sample.container (VStr "pw") (VStr "clash") Sample.fresh in
  let w' := fst (create Sample.container (store (fst res))) in
  let busy := with_store {| data := ∅; locked := true; calls := [] |} Sample.fresh in
  let res2 := authenticate Sample.container (VStr "pw") (VStr "ok") busy in
  let w2' := fst (create Sample.container (store (fst res2))) in
  (auth_authenticate Sample.pw (VStr "clash") = Resolved (Some C) /\
   Authenticators.forwarding Sample.pw /\
   snd res = Resolved tt /\
   session w' = {| isAuthenticated := true; authenticatorFactory := VStr "other";
                   content := Some ∅ |} /\
   ~ (authenticatorFactory (session w') = VStr "pw" /\ content (session w') = Some C)) /\
  (auth_authenticate Sample.pw (VStr "ok") = Resolved (Some (Sample.token "T")) /\
   snd res2 = Resolved tt /\
   session w2' = Session_defaults /\
   ~ (authenticatorFactory (session w2') = VStr "pw" /\
      content (session w2') = Some (Sample.token "T"))).
Proof.
  vm_compute. repeat split; try (intros [H _]; discriminate H).
Qed.

(** * Further properties of the session *)

(** ** Each operation, case by case *)

Lemma lookup_cases (c : Container) (f : value) :
  (exists a A, f = VStr a /\ c a = Some A) \/ unknown c f.
Proof.
  destruct f as [| | |a]; try (right; intros a' Ha; discriminate Ha).
  destruct (c a) as [A|] eqn:Ha; [left; eauto|].
  right. intros a' Ha'. by simplify_eq.
Qed.

Lemma container_lookup_unknown c f w :
  unknown c f -> container_lookup c f w = (w, Throw TypeError).
Proof.
  intros Hu. unfold container_lookup. destruct f as [| | |a]; try done.
  by rewrite (Hu a eq_refl).
Qed.

Lemma container_lookup_known c a A w :
  c a = Some A -> container_lookup c (VStr a) w = (w, Normal (a, A)).
Proof. intros Ha. unfold container_lookup. by rewrite Ha. Qed.

Lemma setup_set_up c a A ct w :
  c a = Some A -> setup c (VStr a) ct w = (set_up a ct w, Normal tt).
Proof. apply setup_eq. Qed.

Lemma clear_cleared w : clear w = (cleared w, Normal tt).
Proof. apply clear_eq. Qed.

(** With no authenticator to bind to, [setup] has written the three
    fields when it throws, and nothing else. *)
Lemma setup_unknown c f ct w :
  unknown c f ->
  setup c f ct w =
  (with_session {| isAuthenticated := true; authenticatorFactory := f;
                   content := ct |} w, Throw TypeError).
Proof.
  intros Hu. unfold setup, bindToAuthenticatorEvents, setProperties.
  unfold mbind, M_bind, bind, modify, gets. simpl.
  by rewrite (container_lookup_unknown _ _ _ Hu).
Qed.

Lemma authenticate_known c a A o w :
  c a = Some A ->
  authenticate c (VStr a) o w =
  match auth_authenticate A o with
  | Resolved C => (set_up a C w, Resolved tt)
  | Rejected E => (cleared w, Rejected E)
  | Pending => (w, Pending)
  end.
Proof.
  intros Ha. unfold authenticate, new_Promise_in, then_.
  unfold mbind at 1. unfold M_bind, bind at 1.
  rewrite (container_lookup_known _ _ _ _ Ha).
  unfold mbind, M_bind, bind, mret, M_ret, ret.
  destruct (auth_authenticate A o) as [C|E|]; [| |done].
  - by rewrite (setup_set_up _ _ _ _ _ Ha).
  - by rewrite clear_cleared.
Qed.

Lemma authenticate_unknown c f o w :
  unknown c f -> authenticate c f o w = (w, Rejected (RThrown TypeError)).
Proof.
  intros Hu. unfold authenticate, new_Promise_in.
  unfold mbind, M_bind, bind. by rewrite (container_lookup_unknown _ _ _ Hu).
Qed.

Lemma invalidate_known c a A w :
  authenticatorFactory (session w) = VStr a ->
  c a = Some A ->
  invalidate c w =
  match auth_invalidate A (content (session w)) with
  | Resolved _ =>
      (cleared (with_bound (filter (fun x => x ≠ a) (bound w)) w), Resolved tt)
  | Rejected E => (w, Rejected E)
  | Pending => (w, Pending)
  end.
Proof.
  intros Hf Ha. unfold invalidate, new_Promise_in, then_.
  unfold mbind at 1. unfold M_bind, bind at 1. unfold gets at 1.
  unfold mbind at 1. unfold M_bind, bind at 1.
  rewrite Hf, (container_lookup_known _ _ _ _ Ha).
  unfold mbind at 1. unfold M_bind, bind at 1. unfold gets at 1.
  destruct (auth_invalidate A (content (session w))) as [[]|E|]; [|done|done].
  unfold off, mbind, M_bind, bind, modify, mret, M_ret, ret.
  by rewrite clear_cleared.
Qed.

Lemma invalidate_unknown c w :
  unknown c (authenticatorFactory (session w)) ->
  invalidate c w = (w, Rejected (RThrown TypeError)).
Proof.
  intros Hu. unfold invalidate, new_Promise_in.
  unfold mbind, M_bind, bind, gets. by rewrite (container_lookup_unknown _ _ _ Hu).
Qed.

Lemma store_listener_no_factory c p w :
  prop_truthy (p !! key) = false -> store_listener c p w = (cleared w, Normal tt).
Proof. intros Hp. unfold store_listener. rewrite Hp. apply clear_cleared. Qed.

Lemma store_listener_known c p a A w :
  p !! key = Some (VStr a) -> a <> "" -> c a = Some A ->
  store_listener c p w =
  match auth_restore A (delete key p) with
  | Resolved C => (set_up a C w, Normal tt)
  | Rejected _ => (cleared w, Normal tt)
  | Pending => (w, Normal tt)
  end.
Proof.
  intros Hp Hne Ha. unfold store_listener. rewrite Hp. simpl.
  apply String.eqb_neq in Hne. rewrite Hne. simpl.
  unfold mbind, M_bind, bind. rewrite (container_lookup_known _ _ _ _ Ha).
  unfold then_. destruct (auth_restore A (delete key p)) as [C|E|]; [| |done].
  - by rewrite (setup_set_up _ _ _ _ _ Ha).
  - by rewrite clear_cleared.
Qed.

Lemma store_listener_unknown c p w :
  prop_truthy (p !! key) = true -> unknown c (default VNull (p !! key)) ->
  store_listener c p w = (w, Throw TypeError).
Proof.
  intros Hp Hu. unfold store_listener. rewrite Hp.
  unfold mbind, M_bind, bind. by rewrite (container_lookup_unknown _ _ _ Hu).
Qed.

Lemma authenticator_listener_known c a A ct w :
  authenticatorFactory (session w) = VStr a -> c a = Some A ->
  authenticator_listener c ct w = (set_up a ct w, Normal tt).
Proof.
  intros Hf Ha. unfold authenticator_listener, mbind, M_bind, bind, gets.
  rewrite Hf. by apply setup_set_up with A.
Qed.

Lemma authenticator_listener_unknown c ct w :
  unknown c (authenticatorFactory (session w)) ->
  authenticator_listener c ct w =
  (with_session {| isAuthenticated := true;
                   authenticatorFactory := authenticatorFactory (session w);
                   content := ct |} w, Throw TypeError).
Proof.
  intros Hu. unfold authenticator_listener, mbind, M_bind, bind, gets.
  by apply setup_unknown.
Qed.

Lemma times_one m w :
  times 1 m w = match m w with
                | (w', Normal _) => (w', Normal tt)
                | (w', Throw e) => (w', Throw e)
                end.
Proof. simpl. unfold mbind, M_bind, bind, mret, M_ret, ret. by destruct (m w) as [? [[]|?]]. Qed.

Lemma create_no_factory c st :
  prop_truthy (data st !! key) = false ->
  create c st = (cleared (booted st), Normal tt).
Proof.
  intros Hp. unfold create, init, bindToStoreEvents. unfold_store. unfold store_call.
  unfold mbind, M_bind, bind, modify, gets, mret, M_ret, ret. simpl. rewrite Hp.
  unfold cleared, erased, booted. simpl.
  destruct (locked st); simpl; unfold with_store, set_data; simpl;
    by rewrite <- ?app_assoc.
Qed.

Lemma create_known c st a A :
  data st !! key = Some (VStr a) -> a <> "" -> c a = Some A ->
  create c st =
  match auth_restore A (delete key (data st)) with
  | Resolved C => (set_up a C (booted st), Normal tt)
  | Rejected _ => (booted st, Normal tt)
  | Pending => (booted st, Normal tt)
  end.
Proof.
  intros Hp Hne Ha. unfold create, init, bindToStoreEvents. unfold_store.
  unfold store_call.
  unfold mbind at 1. unfold M_bind, bind at 1. unfold modify at 1.
  unfold mbind at 1. unfold M_bind, bind at 1.
  unfold mbind at 1. unfold M_bind, bind at 1. unfold modify at 1. unfold gets at 1.
  simpl. rewrite Hp. simpl. apply String.eqb_neq in Hne. rewrite Hne. simpl.
  unfold mbind at 1. unfold M_bind, bind at 1.
  rewrite (container_lookup_known _ _ _ _ Ha). unfold then_.
  destruct (auth_restore A (delete key (data st))) as [C|E|]; [|done|done].
  by rewrite (setup_set_up _ _ _ _ _ Ha).
Qed.

Lemma create_unknown c st :
  prop_truthy (data st !! key) = true ->
  unknown c (default VNull (data st !! key)) ->
  create c st = (booted st, Throw TypeError).
Proof.
  intros Hp Hu. unfold create, init, bindToStoreEvents. unfold_store.
  unfold store_call.
  unfold mbind at 1. unfold M_bind, bind at 1. unfold modify at 1.
  unfold mbind at 1. unfold M_bind, bind at 1.
  unfold mbind at 1. unfold M_bind, bind at 1. unfold modify at 1. unfold gets at 1.
  simpl. rewrite Hp.
  unfold mbind at 1. unfold M_bind, bind at 1.
  by rewrite (container_lookup_unknown _ _ _ Hu).
Qed.

(** A truthy property that names a registered authenticator is a
    non-empty string. *)
Lemma truthy_known c (o : option value) :
  prop_truthy o = true ->
  (exists a A, o = Some (VStr a) /\ a <> "" /\ c a = Some A) \/
  unknown c (default VNull o).
Proof.
  intros Hp. destruct o as [v|]; [|done]. simpl in *.
  destruct (lookup_cases c v) as [(a & A & -> & Ha)|Hu]; [|by right].
  left. exists a, A. repeat split; [|done]. simpl in Hp.
  intros ->. discriminate Hp.
Qed.

(** ** What any operation can do to the world *)

Lemma times_effect (m : M unit) :
  (forall w, rtc effect w (fst (m w))) ->
  forall n w, rtc effect w (fst (times n m w)).
Proof.
  intros Hm n. induction n as [|n IH]; intros w; simpl; [done|].
  unfold mbind, M_bind, bind. specialize (Hm w).
  destruct (m w) as [w' [[]|e]]; simpl in *; [|done].
  by etrans; [apply Hm|apply IH].
Qed.

Lemma store_listener_effect c p w : rtc effect w (fst (store_listener c p w)).
Proof.
  destruct (prop_truthy (p !! key)) eqn:Hp.
  - destruct (truthy_known c _ Hp) as [(a & A & Hk & Hne & Ha)|Hu].
    + rewrite (store_listener_known _ _ _ _ _ Hk Hne Ha).
      destruct (auth_restore A (delete key p)); simpl;
        [apply rtc_once, effect_setup|apply rtc_once, effect_clear|done].
    + by rewrite (store_listener_unknown _ _ _ Hp Hu).
  - rewrite (store_listener_no_factory _ _ _ Hp). apply rtc_once, effect_clear.
Qed.

Lemma authenticator_listener_effect c ct w :
  rtc effect w (fst (authenticator_listener c ct w)).
Proof.
  destruct (lookup_cases c (authenticatorFactory (session w)))
    as [(a & A & Hf & Ha)|Hu].
  - rewrite (authenticator_listener_known _ _ _ _ _ Hf Ha).
    apply rtc_once, effect_setup.
  - rewrite (authenticator_listener_unknown _ _ _ Hu).
    apply rtc_once, effect_fields.
Qed.

Lemma react_effect e w : own e = true -> rtc effect w (react e w).
Proof.
  intros He. destruct e as [c f o|c|c p|c a ct|d l]; simpl; [| | | |done].
  - destruct (lookup_cases c f) as [(a & A & -> & Ha)|Hu].
    + rewrite (authenticate_known _ _ _ _ _ Ha).
      destruct (auth_authenticate A o); simpl;
        [apply rtc_once, effect_setup|apply rtc_once, effect_clear|done].
    + by rewrite (authenticate_unknown _ _ _ _ Hu).
  - destruct (lookup_cases c (authenticatorFactory (session w)))
      as [(a & A & Hf & Ha)|Hu].
    + rewrite (invalidate_known _ _ _ _ Hf Ha).
      destruct (auth_invalidate A (content (session w))); simpl;
        [apply rtc_once, effect_unbind_clear|done|done].
    + by rewrite (invalidate_unknown _ _ Hu).
  - unfold store_trigger, mbind, M_bind, bind, gets.
    apply times_effect. apply store_listener_effect.
  - unfold authenticator_trigger, mbind, M_bind, bind, gets.
    apply times_effect. apply authenticator_listener_effect.
Qed.

Lemma create_effect c st : rtc effect (booted st) (fst (create c st)).
Proof.
  destruct (prop_truthy (data st !! key)) eqn:Hp.
  - destruct (truthy_known c _ Hp) as [(a & A & Hk & Hne & Ha)|Hu].
    + rewrite (create_known _ _ _ _ Hk Hne Ha).
      destruct (auth_restore A (delete key (data st))); simpl;
        [apply rtc_once, effect_setup|done|done].
    + by rewrite (create_unknown _ _ Hp Hu).
  - rewrite (create_no_factory _ _ Hp). apply rtc_once, effect_clear.
Qed.

Lemma effect_locked w w' : effect w w' -> locked (store w') = locked (store w).
Proof.
  intros [a ct| |a|ct]; simpl; unfold persisted, erased;
    by destruct (locked (store w)).
Qed.

Lemma effect_locked_data w w' :
  effect w w' -> locked (store w) = true -> data (store w') = data (store w).
Proof.
  intros [a ct| |a|ct] Hl; simpl; unfold persisted, erased; simpl;
    by rewrite ?Hl.
Qed.

Lemma effect_store_bound w w' : effect w w' -> store_bound w' = store_bound w.
Proof. by intros [a ct| |a|ct]. Qed.

Lemma effect_listeners w w' :
  effect w w' -> listeners_in_order w -> listeners_in_order w'.
Proof.
  intros [a ct| |a|ct] [Hnd Hin]; split; simpl; try done.
  - apply NoDup_cons. split; [|by apply NoDup_filter].
    intros [Hne _]%list_elem_of_filter. by apply Hne.
  - intros a' [= <-]. apply list_elem_of_here.
  - by apply NoDup_filter.
Qed.

Lemma rtc_effect_locked w w' :
  rtc effect w w' ->
  locked (store w') = locked (store w) /\
  (locked (store w) = true -> data (store w') = data (store w)) /\
  store_bound w' = store_bound w.
Proof.
  induction 1 as [w|w w1 w' H1 _ (IHl & IHd & IHb)]; [done|].
  pose proof (effect_locked _ _ H1) as Hl.
  pose proof (effect_store_bound _ _ H1) as Hb.
  split; [congruence|]. split; [|congruence].
  intros Hw. rewrite IHd by congruence. by apply effect_locked_data.
Qed.

Lemma rtc_effect_listeners w w' :
  rtc effect w w' -> listeners_in_order w -> listeners_in_order w'.
Proof. induction 1; eauto using effect_listeners. Qed.

(** ** List facts about the listener table *)

Lemma filter_ne_cons_same (a : string) (l : list string) :
  filter (fun x => x ≠ a) (a :: filter (fun x => x ≠ a) l) =
  filter (fun x => x ≠ a) l.
Proof.
  rewrite filter_cons_False by (intros H; by apply H).
  induction l as [|x l IH]; [done|].
  destruct (decide (x = a)) as [->|Hx].
  - by rewrite filter_cons_False by (intros H; by apply H).
  - rewrite (filter_cons_True _ x l) by done.
    rewrite filter_cons_True by done. by rewrite IH.
Qed.

Lemma no_listener_absent (a : string) (l : list string) :
  a ∉ l -> filter (fun x => x = a) l = [].
Proof.
  induction l as [|x l IH]; intros Ha; [done|].
  apply not_elem_of_cons in Ha as [Hne Ha].
  rewrite filter_cons_False by (intros ->; by apply Hne). by apply IH.
Qed.

Lemma count_listeners_once (a : string) (l : list string) :
  NoDup l -> a ∈ l -> length (filter (fun x => x = a) l) = 1.
Proof.
  induction 1 as [|x l Hx Hnd IH]; intros Ha; [by apply elem_of_nil in Ha|].
  destruct (decide (x = a)) as [->|Hne].
  - rewrite filter_cons_True by done. by rewrite no_listener_absent.
  - rewrite filter_cons_False by done. apply IH.
    apply elem_of_cons in Ha as [->|Ha]; [by destruct Hne|done].
Qed.

(** The record [setup] hands to [persist]. *)
Lemma extend_lookup (f : value) (C : gmap string value) (k : string) :
  extend {[ key := f ]} (Some C) !! k =
  match C !! k with
  | Some v => Some v
  | None => if decide (k = key) then Some f else None
  end.
Proof.
  simpl. rewrite lookup_union. destruct (C !! k) as [v|] eqn:HC.
  - by destruct ({[key := f]} !! k).
  - rewrite (left_id_L None _). case_decide as Hk.
    + subst k. by rewrite lookup_singleton_eq.
    + by rewrite lookup_singleton_ne.
Qed.

(** ** [authenticate] *)

(** X1: when the authenticator registered under [a] resolves
    [authenticate] with [C], the returned promise resolves; the session
    is authenticated under [a] with content [C]; [a] carries one
    listener, listeners on other authenticators stay; an unlocked store
    ends unlocked holding exactly [C] extended with the name, a locked
    store keeps its record. *)
Theorem authenticate_resolved_sets_up
    (c : Container) (w : World) (a : string) (A : Authenticator)
    (o : value) (C : Content) :
  c a = Some A ->
  auth_authenticate A o = Resolved C ->
  let res := authenticate c (VStr a) o w in
  snd res = Resolved tt /\
  session (fst res) =
    {| isAuthenticated := true; authenticatorFactory := VStr a; content := C |} /\
  bound (fst res) = a :: filter (fun x => x ≠ a) (bound w) /\
  (locked (store w) = false ->
     data (store (fst res)) = extend {[ key := VStr a ]} C /\
     locked (store (fst res)) = false) /\
  (locked (store w) = true ->
     data (store (fst res)) = data (store w) /\
     locked (store (fst res)) = true).
Proof.
  intros Ha HC res. subst res. rewrite (authenticate_known _ _ _ _ _ Ha), HC. simpl.
  unfold persisted. split; [done|]. split; [done|]. split; [done|].
  split; intros ->; simpl; [|done].
  split; [|done]. apply (right_id_L ∅ (∪)).
Qed.

Lemma authenticate_resolved_sets_up_witness :
  let res := authenticate Sample.container (VStr "pw") (VStr "ok") Sample.fresh in
  snd res = Resolved tt /\
  session (fst res) =
    {| isAuthenticated := true; authenticatorFactory := VStr "pw";
       content := Some (Sample.token "T") |} /\
  bound (fst res) = "pw" :: filter (fun x => x ≠ "pw") (bound Sample.fresh) /\
  (locked (store Sample.fresh) = false ->
     data (store (fst res)) = extend {[ key := VStr "pw" ]} (Some (Sample.token "T")) /\
     locked (store (fst res)) = false) /\
  (locked (store Sample.fresh) = true ->
     data (store (fst res)) = data (store Sample.fresh) /\
     locked (store (fst res)) = true).
Proof.
  apply (authenticate_resolved_sets_up Sample.container Sample.fresh "pw" Sample.pw);
    reflexivity.
Defined.

(** X2: [authenticate] under a value the container has no
    authenticator for leaves the world untouched, and the returned
    promise rejects with the [TypeError] thrown in its resolver. *)
Theorem authenticate_unregistered_rejects
    (c : Container) (w : World) (f o : value) :
  unknown c f ->
  authenticate c f o w = (w, Rejected (RThrown TypeError)).
Proof. apply authenticate_unknown. Qed.

Lemma authenticate_unregistered_rejects_witness :
  authenticate Sample.container (VStr "nobody") (VStr "ok") Sample.signed_in =
  (Sample.signed_in, Rejected (RThrown TypeError)).
Proof.
  apply (authenticate_unregistered_rejects Sample.container Sample.signed_in
           (VStr "nobody")).
  intros a Ha. injection Ha as <-. reflexivity.
Defined.

(** ** [invalidate] *)

(** X3: when the active authenticator resolves [invalidate], the
    returned promise resolves; the session is unauthenticated with both
    other fields null; the listener on that authenticator is gone and
    those on other authenticators stay; an unlocked store is emptied, a
    locked one keeps its record. *)
Theorem invalidate_resolved_clears
    (c : Container) (w : World) (a : string) (A : Authenticator) :
  authenticatorFactory (session w) = VStr a ->
  c a = Some A ->
  auth_invalidate A (content (session w)) = Resolved tt ->
  let res := invalidate c w in
  snd res = Resolved tt /\
  session (fst res) = Session_defaults /\
  bound (fst res) = filter (fun x => x ≠ a) (bound w) /\
  (a ∉ bound (fst res)) /\
  (locked (store w) = false -> data (store (fst res)) = ∅) /\
  (locked (store w) = true -> data (store (fst res)) = data (store w)).
Proof.
  intros Hf Ha HA res. subst res. rewrite (invalidate_known _ _ _ _ Hf Ha), HA. simpl.
  unfold erased. repeat split.
  - intros [Hne _]%list_elem_of_filter. by apply Hne.
  - by intros ->.
  - by intros ->.
Qed.

Lemma invalidate_resolved_clears_witness :
  let res := invalidate Fixture.container Fixture.signed_in in
  snd res = Resolved tt /\
  session (fst res) = Session_defaults /\
  bound (fst res) = filter (fun x => x ≠ "oauth") (bound Fixture.signed_in) /\
  ("oauth" ∉ bound (fst res)) /\
  (locked (store Fixture.signed_in) = false -> data (store (fst res)) = ∅) /\
  (locked (store Fixture.signed_in) = true ->
     data (store (fst res)) = data (store Fixture.signed_in)).
Proof.
  apply (invalidate_resolved_clears Fixture.container Fixture.signed_in
           "oauth" Fixture.oauth); reflexivity.
Defined.

(** X4: [invalidate] on a session whose [authenticatorFactory] names no
    registered authenticator, as on a session that is not
    authenticated, leaves the world untouched, and the returned promise
    rejects with the [TypeError] thrown in its resolver. *)
Theorem invalidate_without_authenticator_rejects (c : Container) (w : World) :
  unknown c (authenticatorFactory (session w)) ->
  invalidate c w = (w, Rejected (RThrown TypeError)).
Proof. apply invalidate_unknown. Qed.

Lemma invalidate_without_authenticator_rejects_witness :
  invalidate Sample.container Sample.fresh =
  (Sample.fresh, Rejected (RThrown TypeError)).
Proof.
  apply (invalidate_without_authenticator_rejects Sample.container Sample.fresh).
  intros a Ha. discriminate Ha.
Defined.

(** ** Notifications *)

(** X5: when the authenticator the session names sends
    [session-updated] with [ct], and it is registered and carries the
    session's one listener, the session stays authenticated under the
    same name with content [ct], the listener is bound anew (still
    one), and an unlocked store ends holding [ct] extended with the
    name while a locked store keeps its record. *)
Theorem session_updated_refreshes
    (c : Container) (w : World) (a : string) (A : Authenticator) (ct : Content) :
  authenticatorFactory (session w) = VStr a ->
  c a = Some A ->
  NoDup (bound w) ->
  a ∈ bound w ->
  let res := authenticator_trigger c a ct w in
  snd res = Normal tt /\
  session (fst res) =
    {| isAuthenticated := true; authenticatorFactory := VStr a; content := ct |} /\
  bound (fst res) = a :: filter (fun x => x ≠ a) (bound w) /\
  (locked (store w) = false ->
     data (store (fst res)) = extend {[ key := VStr a ]} ct) /\
  (locked (store w) = true -> data (store (fst res)) = data (store w)).
Proof.
  intros Hf Ha Hnd Hin res. subst res.
  unfold authenticator_trigger, mbind, M_bind, bind, gets.
  rewrite (count_listeners_once _ _ Hnd Hin), times_one.
  rewrite (authenticator_listener_known _ _ _ _ _ Hf Ha). simpl.
  unfold persisted. split; [done|]. split; [done|]. split; [done|].
  split; intros ->; simpl; [|done]. apply (right_id_L ∅ (∪)).
Qed.

Lemma session_updated_refreshes_witness :
  let res := authenticator_trigger Sample.container "pw"
               (Some (Sample.token "T2")) Sample.signed_in in
  snd res = Normal tt /\
  session (fst res) =
    {| isAuthenticated := true; authenticatorFactory := VStr "pw";
       content := Some (Sample.token "T2") |} /\
  bound (fst res) = "pw" :: filter (fun x => x ≠ "pw") (bound Sample.signed_in) /\
  (locked (store Sample.signed_in) = false ->
     data (store (fst res)) =
       extend {[ key := VStr "pw" ]} (Some (Sample.token "T2"))) /\
  (locked (store Sample.signed_in) = true ->
     data (store (fst res)) = data (store Sample.signed_in)).
Proof.
  apply (session_updated_refreshes Sample.container Sample.signed_in "pw" Sample.pw).
  - reflexivity.
  - reflexivity.
  - vm_compute. apply NoDup_singleton.
  - vm_compute. apply list_elem_of_here.
Defined.

(** X6: when the store notifies properties whose
    [authenticatorFactory] names a registered authenticator and that
    authenticator resolves [restore] with [C], the listener has given
    [restore] the properties without the name, the session ends
    authenticated under that name with content [C], and an unlocked
    store is rewritten to [C] extended with the name. *)
Theorem store_update_restores
    (c : Container) (w : World) (p : gmap string value) (a : string)
    (A : Authenticator) (C : Content) :
  store_bound w = 1 ->
  p !! key = Some (VStr a) ->
  a <> "" ->
  c a = Some A ->
  auth_restore A (delete key p) = Resolved C ->
  let res := store_trigger c p w in
  snd res = Normal tt /\
  session (fst res) =
    {| isAuthenticated := true; authenticatorFactory := VStr a; content := C |} /\
  bound (fst res) = a :: filter (fun x => x ≠ a) (bound w) /\
  (locked (store w) = false ->
     data (store (fst res)) = extend {[ key := VStr a ]} C) /\
  (locked (store w) = true -> data (store (fst res)) = data (store w)).
Proof.
  intros Hb Hk Hne Ha HC res. subst res.
  unfold store_trigger, mbind, M_bind, bind, gets. rewrite Hb, times_one.
  rewrite (store_listener_known _ _ _ _ _ Hk Hne Ha), HC. simpl.
  unfold persisted. split; [done|]. split; [done|]. split; [done|].
  split; intros ->; simpl; [|done]. apply (right_id_L ∅ (∪)).
Qed.

Lemma store_update_restores_witness :
  let p := {[ key := VStr "pw"; "token" := VStr "T3" ]} : gmap string value in
  let res := store_trigger Sample.container p Sample.fresh in
  snd res = Normal tt /\
  session (fst res) =
    {| isAuthenticated := true; authenticatorFactory := VStr "pw";
       content := Some (delete key p) |} /\
  bound (fst res) = "pw" :: filter (fun x => x ≠ "pw") (bound Sample.fresh) /\
  (locked (store Sample.fresh) = false ->
     data (store (fst res)) = extend {[ key := VStr "pw" ]} (Some (delete key p))) /\
  (locked (store Sample.fresh) = true ->
     data (store (fst res)) = data (store Sample.fresh)).
Proof.
  apply (store_update_restores Sample.container Sample.fresh
           {[ key := VStr "pw"; "token" := VStr "T3" ]} "pw" Sample.pw).
  - reflexivity.
  - reflexivity.
  - discriminate.
  - reflexivity.
  - reflexivity.
Defined.

(** X7: when the store notifies properties whose
    [authenticatorFactory] is truthy but has no registered
    authenticator, the listener throws a [TypeError] and the world is
    untouched: the session is neither set up nor cleared. *)
Theorem store_update_unregistered_throws
    (c : Container) (w : World) (p : gmap string value) :
  store_bound w = 1 ->
  prop_truthy (p !! key) = true ->
  unknown c (default VNull (p !! key)) ->
  store_trigger c p w = (w, Throw TypeError).
Proof.
  intros Hb Hp Hu. unfold store_trigger, mbind, M_bind, bind, gets.
  rewrite Hb, times_one. by rewrite (store_listener_unknown _ _ _ Hp Hu).
Qed.

Lemma store_update_unregistered_throws_witness :
  store_trigger Sample.container {[ key := VStr "gone" ]} Sample.signed_in =
  (Sample.signed_in, Throw TypeError).
Proof.
  apply (store_update_unregistered_throws Sample.container Sample.signed_in
           {[ key := VStr "gone" ]}).
  - reflexivity.
  - reflexivity.
  - intros a Ha. vm_compute in Ha. injection Ha as <-. reflexivity.
Defined.

(** ** Creating a session *)

(** X8: a session created over a store whose record has no truthy
    [authenticatorFactory] is unauthenticated, has bound one listener
    on the store and none on an authenticator; an unlocked store is
    emptied, whatever else it held, and a locked store is left as it
    was. *)
Theorem init_without_record
    (c : Container) (st : Store) :
  prop_truthy (data st !! key) = false ->
  let res := create c st in
  snd res = Normal tt /\
  session (fst res) = Session_defaults /\
  bound (fst res) = [] /\
  store_bound (fst res) = 1 /\
  (locked st = false ->
     data (store (fst res)) = ∅ /\
     calls (store (fst res)) = calls st ++ [CallRestore; CallIsLocked; CallClear]) /\
  (locked st = true ->
     data (store (fst res)) = data st /\
     calls (store (fst res)) = calls st ++ [CallRestore; CallIsLocked]).
Proof.
  intros Hp res. subst res. rewrite (create_no_factory _ _ Hp). simpl.
  unfold erased. simpl. split; [done|]. split; [done|]. split; [done|].
  split; [done|].
  split; intros ->; simpl; by rewrite <- app_assoc.
Qed.

Lemma init_without_record_witness :
  let res := create Sample.container Fixture.busy_store in
  snd res = Normal tt /\
  session (fst res) = Session_defaults /\
  bound (fst res) = [] /\
  store_bound (fst res) = 1 /\
  (locked Fixture.busy_store = false ->
     data (store (fst res)) = ∅ /\
     calls (store (fst res)) =
       calls Fixture.busy_store ++ [CallRestore; CallIsLocked; CallClear]) /\
  (locked Fixture.busy_store = true ->
     data (store (fst res)) = data Fixture.busy_store /\
     calls (store (fst res)) = calls Fixture.busy_store ++ [CallRestore; CallIsLocked]).
Proof.
  apply (init_without_record Sample.container Fixture.busy_store). reflexivity.
Defined.

(** X9: a session created over a store whose record names a registered
    authenticator that resolves [restore] with [C] is authenticated
    under that name with content [C], with one listener on that
    authenticator and one on the store; an unlocked store is rewritten
    to [C] extended with the name. *)
Theorem init_restores_session
    (c : Container) (st : Store) (a : string) (A : Authenticator) (C : Content) :
  data st !! key = Some (VStr a) ->
  a <> "" ->
  c a = Some A ->
  auth_restore A (delete key (data st)) = Resolved C ->
  let res := create c st in
  snd res = Normal tt /\
  session (fst res) =
    {| isAuthenticated := true; authenticatorFactory := VStr a; content := C |} /\
  bound (fst res) = [a] /\
  store_bound (fst res) = 1 /\
  (locked st = false -> data (store (fst res)) = extend {[ key := VStr a ]} C) /\
  (locked st = true -> data (store (fst res)) = data st).
Proof.
  intros Hk Hne Ha HC res. subst res. rewrite (create_known _ _ _ _ Hk Hne Ha), HC.
  simpl. unfold persisted. simpl.
  split; [done|]. split; [done|]. split; [done|]. split; [done|].
  split; intros ->; simpl; [|done]. apply (right_id_L ∅ (∪)).
Qed.

Lemma init_restores_session_witness :
  let res := create Fixture.container Fixture.saved_store in
  snd res = Normal tt /\
  session (fst res) =
    {| isAuthenticated := true; authenticatorFactory := VStr "oauth";
       content := Some (delete key (data Fixture.saved_store)) |} /\
  bound (fst res) = ["oauth"] /\
  store_bound (fst res) = 1 /\
  (locked Fixture.saved_store = false ->
     data (store (fst res)) =
       extend {[ key := VStr "oauth" ]} (Some (delete key (data Fixture.saved_store)))) /\
  (locked Fixture.saved_store = true ->
     data (store (fst res)) = data Fixture.saved_store).
Proof.
  apply (init_restores_session Fixture.container Fixture.saved_store
           "oauth" Fixture.oauth).
  - reflexivity.
  - discriminate.
  - reflexivity.
  - reflexivity.
Defined.

(** X10: creating a session over a store whose record has a truthy
    [authenticatorFactory] with no registered authenticator throws a
    [TypeError] out of [init]; the store listener is bound, the store
    has only been read and keeps its record, and the session fields
    are at their defaults. *)
Theorem init_unregistered_throws (c : Container) (st : Store) :
  prop_truthy (data st !! key) = true ->
  unknown c (default VNull (data st !! key)) ->
  let res := create c st in
  snd res = Throw TypeError /\
  session (fst res) = Session_defaults /\
  data (store (fst res)) = data st /\
  locked (store (fst res)) = locked st /\
  calls (store (fst res)) = calls st ++ [CallRestore].
Proof.
  intros Hp Hu res. subst res. by rewrite (create_unknown _ _ Hp Hu).
Qed.

Lemma init_unregistered_throws_witness :
  let res := create Sample.container Fixture.orphan_store in
  snd res = Throw TypeError /\
  session (fst res) = Session_defaults /\
  data (store (fst res)) = data Fixture.orphan_store /\
  locked (store (fst res)) = locked Fixture.orphan_store /\
  calls (store (fst res)) = calls Fixture.orphan_store ++ [CallRestore].
Proof.
  apply (init_unregistered_throws Sample.container Fixture.orphan_store).
  - reflexivity.
  - intros a Ha. vm_compute in Ha. injection Ha as <-. reflexivity.
Defined.

(** X11: when the authenticator named in the store's record rejects
    the [restore] at creation, [init] completes without an exception
    and, locked or not, the store has only been read: it keeps its
    record and its lock flag, and the session stays unauthenticated. *)
Theorem init_rejected_restore_keeps_record
    (c : Container) (st : Store) (a : string) (A : Authenticator) (E : reason) :
  data st !! key = Some (VStr a) ->
  a <> "" ->
  c a = Some A ->
  auth_restore A (delete key (data st)) = Rejected E ->
  let res := create c st in
  snd res = Normal tt /\
  session (fst res) = Session_defaults /\
  bound (fst res) = [] /\
  data (store (fst res)) = data st /\
  locked (store (fst res)) = locked st /\
  calls (store (fst res)) = calls st ++ [CallRestore].
Proof.
  intros Hk Hne Ha HE res. subst res.
  by rewrite (create_known _ _ _ _ Hk Hne Ha), HE.
Qed.

Lemma init_rejected_restore_keeps_record_witness :
  let res := create Sample.container Sample.stale_store in
  snd res = Normal tt /\
  session (fst res) = Session_defaults /\
  bound (fst res) = [] /\
  data (store (fst res)) = data Sample.stale_store /\
  locked (store (fst res)) = locked Sample.stale_store /\
  calls (store (fst res)) = calls Sample.stale_store ++ [CallRestore].
Proof.
  apply (init_rejected_restore_keeps_record Sample.container Sample.stale_store
           "base" Authenticators.Base.Base RUndefined).
  - reflexivity.
  - discriminate.
  - reflexivity.
  - reflexivity.
Defined.

(** ** The store along a run *)

Lemma run_own_effect es w : forallb own es = true -> rtc effect w (run es w).
Proof.
  revert w. induction es as [|e es IH]; intros w Hes; simpl in *; [done|].
  apply andb_prop in Hes as [He Hes].
  etrans; [by apply react_effect|by apply IH].
Qed.

Lemma run_from_booted c st es :
  forallb own es = true -> rtc effect (booted st) (run es (fst (create c st))).
Proof. intros Hes. etrans; [apply create_effect|by apply run_own_effect]. Qed.

(** X12: as long as no other writer touches the store, after the
    creation of the session and any sequence of [authenticate],
    [invalidate], store notifications and authenticator notifications
    the lock flag is what it was when the session was created: the
    session never leaves the store locked, and never unlocks a store
    another writer locked. *)
Theorem lock_flag_is_restored (c : Container) (st : Store) (es : list event) :
  forallb own es = true ->
  locked (store (run es (fst (create c st)))) = locked st.
Proof.
  intros Hes. by destruct (rtc_effect_locked _ _ (run_from_booted c st es Hes)) as [-> _].
Qed.

Lemma lock_flag_is_restored_witness :
  locked (store (run
    [ Authenticate Fixture.container (VStr "oauth") VNull;
      SessionUpdated Fixture.container "oauth" (Some (Sample.token "T2"));
      StoreUpdated Fixture.container ∅;
      Authenticate Fixture.container (VStr "pw") (VStr "wrong");
      Invalidate Fixture.container ]
    (fst (create Fixture.container Fixture.saved_store)))) =
  locked Fixture.saved_store.
Proof.
  apply (lock_flag_is_restored Fixture.container Fixture.saved_store). reflexivity.
Defined.

(** X13: while the store is locked and no other writer touches it,
    nothing the session does (its creation, [authenticate],
    [invalidate], reacting to store or authenticator notifications)
    changes the record the store holds. *)
Theorem locked_store_keeps_record (c : Container) (st : Store) (es : list event) :
  forallb own es = true ->
  locked st = true ->
  data (store (run es (fst (create c st)))) = data st.
Proof.
  intros Hes Hl.
  destruct (rtc_effect_locked _ _ (run_from_booted c st es Hes)) as (_ & Hd & _).
  by apply Hd.
Qed.

Lemma locked_store_keeps_record_witness :
  data (store (run
    [ Authenticate Fixture.container (VStr "oauth") VNull;
      SessionUpdated Fixture.container "oauth" (Some (Sample.token "T2"));
      Invalidate Fixture.container;
      StoreUpdated Fixture.container ∅ ]
    (fst (create Fixture.container Fixture.busy_store)))) =
  data Fixture.busy_store.
Proof.
  apply (locked_store_keeps_record Fixture.container Fixture.busy_store);
    reflexivity.
Defined.

(** ** Listeners along a run *)

Lemma react_listeners e w : listeners_in_order w -> listeners_in_order (react e w).
Proof.
  destruct (own e) eqn:He.
  - apply rtc_effect_listeners. by apply react_effect.
  - by destruct e.
Qed.

Lemma run_listeners es w : listeners_in_order w -> listeners_in_order (run es w).
Proof.
  revert w. induction es as [|e es IH]; intros w Hw; simpl; [done|].
  by apply IH, react_listeners.
Qed.

Lemma booted_listeners st : listeners_in_order (booted st).
Proof. split; [apply NoDup_nil_2|]. intros a Ha. discriminate Ha. Qed.

(** X14: in every state a session reaches, whatever the events and
    whoever sends them, no authenticator carries more than one
    [session-updated] listener of the session, and the authenticator
    [authenticatorFactory] names carries one. *)
Theorem one_listener_per_authenticator (c : Container) (st : Store) (es : list event) :
  let w := run es (fst (create c st)) in
  NoDup (bound w) /\
  (forall a, authenticatorFactory (session w) = VStr a ->
             length (filter (fun x => x = a) (bound w)) = 1).
Proof.
  intros w.
  assert (Hw : listeners_in_order w).
  { apply run_listeners. eapply rtc_effect_listeners; [apply create_effect|].
    apply booted_listeners. }
  destruct Hw as [Hnd Hin]. split; [done|].
  intros a Ha. apply count_listeners_once; [done|by apply Hin].
Qed.

(** X15: [bindToStoreEvents] runs once, in [init]: in every state a
    session reaches the store carries exactly one listener of the
    session. *)
Theorem one_listener_on_store (c : Container) (st : Store) (es : list event) :
  store_bound (run es (fst (create c st))) = 1.
Proof.
  assert (H0 : store_bound (fst (create c st)) = 1).
  { by destruct (rtc_effect_locked _ _ (create_effect c st)) as (_ & _ & ->). }
  revert H0. generalize (fst (create c st)).
  induction es as [|e es IH]; intros w Hw; simpl; [done|].
  apply IH. destruct (own e) eqn:He.
  - destruct (rtc_effect_locked _ _ (react_effect e w He)) as (_ & _ & ->). done.
  - by destruct e.
Qed.

(** X16: without any condition on who sends [session-updated]:
    whenever [isAuthenticated] is false in a state the session
    reaches, [authenticatorFactory] and [content] are both null. *)
Theorem unauthenticated_session_is_blank (c : Container) (st : Store) (es : list event) :
  let s := session (run es (fst (create c st))) in
  (isAuthenticated s = false -> authenticatorFactory s = VNull /\ content s = None).
Proof. intros s. apply run_blank_unless_authenticated. Qed.

Lemma unauthenticated_session_is_blank_witness :
  let s := session (run
    [ Authenticate Sample.container (VStr "pw") (VStr "ok");
      Authenticate Sample.container (VStr "pw") (VStr "wrong") ]
    (fst (create Sample.container Sample.empty_store))) in
  authenticatorFactory s = VNull /\ content s = None.
Proof.
  apply (unauthenticated_session_is_blank Sample.container Sample.empty_store
           [ Authenticate Sample.container (VStr "pw") (VStr "ok");
             Authenticate Sample.container (VStr "pw") (VStr "wrong") ]).
  reflexivity.
Defined.

(** ** How the operations compose *)

(** X17: [setup] twice with the same arguments leaves the session
    fields, the listeners, the stored record and the lock flag as one
    [setup] does: repeating it accumulates nothing. *)
Theorem setup_twice
    (c : Container) (w : World) (a : string) (A : Authenticator) (ct : Content) :
  c a = Some A ->
  let w1 := fst (setup c (VStr a) ct w) in
  let w2 := fst (setup c (VStr a) ct w1) in
  session w2 = session w1 /\
  bound w2 = bound w1 /\
  data (store w2) = data (store w1) /\
  locked (store w2) = locked (store w1).
Proof.
  intros Ha w1 w2. subst w1 w2. rewrite !(setup_set_up _ _ _ _ _ Ha). simpl.
  split; [done|]. split; [by rewrite filter_ne_cons_same|].
  unfold persisted. by destruct (locked (store w)).
Qed.

Lemma setup_twice_witness :
  let w1 := fst (setup Sample.container (VStr "pw") (Some (Sample.token "T"))
                   Fixture.signed_in) in
  let w2 := fst (setup Sample.container (VStr "pw") (Some (Sample.token "T")) w1) in
  session w2 = session w1 /\
  bound w2 = bound w1 /\
  data (store w2) = data (store w1) /\
  locked (store w2) = locked (store w1).
Proof.
  apply (setup_twice Sample.container Fixture.signed_in "pw" Sample.pw). reflexivity.
Defined.

(** X18: an [authenticate] that resolves followed by an [invalidate]
    that resolves leaves the session unauthenticated with both other
    fields null, no listener on that authenticator, the listeners on
    other authenticators as they were, and an unlocked store empty. *)
Theorem authenticate_then_invalidate
    (c : Container) (w : World) (a : string) (A : Authenticator)
    (o : value) (C : Content) :
  c a = Some A ->
  auth_authenticate A o = Resolved C ->
  auth_invalidate A C = Resolved tt ->
  let w1 := fst (authenticate c (VStr a) o w) in
  let res := invalidate c w1 in
  snd res = Resolved tt /\
  session (fst res) = Session_defaults /\
  bound (fst res) = filter (fun x => x ≠ a) (bound w) /\
  (locked (store w) = false ->
     data (store (fst res)) = ∅ /\ locked (store (fst res)) = false).
Proof.
  intros Ha HC HI w1 res. subst res w1.
  rewrite (authenticate_known _ _ _ _ _ Ha), HC. simpl.
  rewrite (invalidate_known c a A (set_up a C w) eq_refl Ha). simpl. rewrite HI. simpl.
  split; [done|]. split; [done|]. split; [by rewrite filter_ne_cons_same|].
  intros Hl. unfold erased, persisted. by rewrite Hl.
Qed.

Lemma authenticate_then_invalidate_witness :
  let w := fst (create Fixture.container Sample.empty_store) in
  let w1 := fst (authenticate Fixture.container (VStr "oauth") VNull w) in
  let res := invalidate Fixture.container w1 in
  snd res = Resolved tt /\
  session (fst res) = Session_defaults /\
  bound (fst res) = filter (fun x => x ≠ "oauth") (bound w) /\
  (locked (store w) = false ->
     data (store (fst res)) = ∅ /\ locked (store (fst res)) = false).
Proof.
  apply (authenticate_then_invalidate Fixture.container
           (fst (create Fixture.container Sample.empty_store))
           "oauth" Fixture.oauth VNull (Some (Sample.token "T")));
    reflexivity.
Defined.

(** X19: the record [setup] leaves in an unlocked store has, under each
    key, the content's value if the content has that key, the
    authenticator's name under [authenticatorFactory] otherwise, and
    nothing else: no property of the record held before survives. *)
Theorem setup_replaces_record
    (c : Container) (w : World) (a : string) (A : Authenticator)
    (C : gmap string value) (k : string) :
  c a = Some A ->
  locked (store w) = false ->
  data (store (fst (setup c (VStr a) (Some C) w))) !! k =
  match C !! k with
  | Some v => Some v
  | None => if decide (k = key) then Some (VStr a) else None
  end.
Proof.
  intros Ha Hl. rewrite (setup_set_up _ _ _ _ _ Ha). simpl.
  unfold persisted. rewrite Hl. simpl data.
  rewrite (right_id_L ∅ (∪)). apply (extend_lookup (VStr a) C k).
Qed.

Lemma setup_replaces_record_witness :
  data (store (fst (setup Sample.container (VStr "pw") (Some (Sample.token "T2"))
                      Fixture.signed_in))) !! "token" =
  match Sample.token "T2" !! "token" with
  | Some v => Some v
  | None => if decide ("token" = key) then Some (VStr "pw") else None
  end.
Proof.
  apply (setup_replaces_record Sample.container Fixture.signed_in "pw" Sample.pw);
    reflexivity.
Defined.

(** X20: with the base authenticator registered under a name, an
    [authenticate] under that name always ends as [clear] does with
    the promise rejected, and an [invalidate] of a session that names
    it changes nothing and rejects with the [ReferenceError]: the base
    authenticator neither authenticates a session nor lets one go. *)
Theorem Base_never_authenticates_nor_invalidates
    (c : Container) (a : string) (w : World) (o : value) :
  c a = Some Authenticators.Base.Base ->
  authenticate c (VStr a) o w = (fst (clear w), Rejected RUndefined) /\
  isAuthenticated (session (fst (authenticate c (VStr a) o w))) = false /\
  (authenticatorFactory (session w) = VStr a ->
   invalidate c w = (w, Rejected (RThrown ReferenceError))).
Proof.
  intros Ha. rewrite (authenticate_known _ _ _ _ _ Ha), clear_cleared. simpl.
  split; [done|]. split; [done|].
  intros Hf. by rewrite (invalidate_known _ _ _ _ Hf Ha).
Qed.

Lemma Base_never_authenticates_nor_invalidates_witness :
  authenticate Sample.container (VStr "base") (VStr "ok") Sample.signed_in =
    (fst (clear Sample.signed_in), Rejected RUndefined) /\
  isAuthenticated (session (fst (authenticate Sample.container (VStr "base")
                                   (VStr "ok") Sample.signed_in))) = false /\
  (authenticatorFactory (session Sample.signed_in) = VStr "base" ->
   invalidate Sample.container Sample.signed_in =
     (Sample.signed_in, Rejected (RThrown ReferenceError))).
Proof.
  apply (Base_never_authenticates_nor_invalidates Sample.container "base").
  reflexivity.
Defined.
